(** * Markdown SQL fix-up scripts: a shallow embedding

    The repository holds two maintenance scripts that rewrite markdown
    lesson files in place:

    - [scripts/fix_divs_and_blockquotes_sql.py] (module [FixDivs]) unwraps
      sql fences that only hold a centered div header and turns runs of
      quoted SQL lines into one fenced block;
    - [scripts/normalize_bold_sql.py] (module [NormalizeBold]) turns runs of
      bold-wrapped SQL lines into one fenced block, skipping what already
      sits inside a fence.

    A Python [str] is modelled as a list of characters.  A character is a
    code point below 256 (type [ascii], read as Latin-1); the character
    classes of the [re] module ([\s], [\w], case folding under [re.I]) and
    the line boundaries of [str.splitlines] are the Unicode ones restricted
    to that range.  Each regular expression of the source is compiled by
    hand into the recogniser that follows the backtracking order of [re];
    the comment above each recogniser explains why the order leaves no
    choice. *)

From Stdlib Require Import Ascii String List Bool Arith Lia.
From stdpp Require Import gmap strings list.
From Equations Require Import Equations.
From Equations.Prop Require Import Logic.
Import ListNotations.

Local Open Scope list_scope.

(** ** Texts and characters *)

Definition pystr : Type := list ascii.

Definition str (s : string) : pystr := list_ascii_of_string s.

Definition LF : ascii := "010"%char.
Definition CR : ascii := "013"%char.

Definition in_range (lo hi n : nat) : bool := (lo <=? n) && (n <=? hi).

(** [\s] of a str pattern: the characters for which [str.isspace] holds. *)
Definition is_space (c : ascii) : bool :=
  let n := nat_of_ascii c in
  in_range 9 13 n || in_range 28 32 n || (n =? 133) || (n =? 160).

(** [\w] of a str pattern: alphanumerics and the underscore. *)
Definition is_word (c : ascii) : bool :=
  let n := nat_of_ascii c in
  in_range 48 57 n || in_range 65 90 n || (n =? 95) || in_range 97 122 n
  || (n =? 170) || in_range 178 179 n || (n =? 181) || in_range 185 186 n
  || in_range 188 190 n || in_range 192 214 n || in_range 216 246 n
  || in_range 248 255 n.

(** The line boundaries of [str.splitlines]. *)
Definition is_linebreak (c : ascii) : bool :=
  let n := nat_of_ascii c in
  in_range 10 13 n || in_range 28 30 n || (n =? 133).

(** Case folding of [re.I] and of [str.lower] as far as it can produce or
    consume an ASCII letter: below 256 only A-Z fold onto a-z. *)
Definition lower (c : ascii) : ascii :=
  let n := nat_of_ascii c in
  if in_range 65 90 n then ascii_of_nat (n + 32) else c.

Definition eq_ci (a b : ascii) : bool := Ascii.eqb (lower a) (lower b).

(** A literal of a pattern compiled with [re.I], tried at the head of [s];
    the result is what follows the matched characters. *)
Fixpoint prefix_ci (p s : pystr) : option pystr :=
  match p, s with
  | [], _ => Some s
  | a :: p', b :: s' => if eq_ci a b then prefix_ci p' s' else None
  | _ :: _, [] => None
  end.

(** A case-sensitive literal at the head of [s]. *)
Fixpoint prefix_cs (p s : pystr) : option pystr :=
  match p, s with
  | [], _ => Some s
  | a :: p', b :: s' => if Ascii.eqb a b then prefix_cs p' s' else None
  | _ :: _, [] => None
  end.

(** Greedy [\s*] when the next pattern item cannot be a space. *)
Fixpoint lstrip (s : pystr) : pystr :=
  match s with
  | c :: s' => if is_space c then lstrip s' else s
  | [] => []
  end.

Fixpoint contains_ci (p s : pystr) : bool :=
  match prefix_ci p s with
  | Some _ => true
  | None => match s with
            | [] => false
            | _ :: s' => contains_ci p s'
            end
  end.

Definition is_empty (s : pystr) : bool :=
  match s with [] => true | _ => false end.

(** [text.endswith] of a line feed. *)
Fixpoint ends_with_lf (s : pystr) : bool :=
  match s with
  | [] => false
  | [c] => Ascii.eqb c LF
  | _ :: s' => ends_with_lf s'
  end.

(** [str.splitlines()]: cut at every line boundary, a CR LF pair counting
    as one; a boundary at the very end opens no further line. *)
Fixpoint splitlines (s : pystr) : list pystr :=
  match s with
  | [] => []
  | c :: s' =>
      if is_linebreak c then
        match s' with
        | c2 :: s'' =>
            if Ascii.eqb c CR && Ascii.eqb c2 LF
            then [] :: splitlines s''
            else [] :: splitlines s'
        | [] => [[]]
        end
      else
        match splitlines s' with
        | [] => [[c]]
        | l :: ls => (c :: l) :: ls
        end
  end.

(** [join] of the lines with a line feed as the separator. *)
Fixpoint join_lf (lines : list pystr) : pystr :=
  match lines with
  | [] => []
  | [l] => l
  | l :: ls => l ++ LF :: join_lf ls
  end.

(** ** SQL keyword heuristic shared by both scripts

    [\b(K1|K2|...)\b] under [re.I], used through [search] and only tested
    for truth.  Every alternative starts and ends with a letter, so the
    leading [\b] holds exactly when the previous character is not a word
    character (or there is none) and the trailing [\b] exactly when the
    next one is not (or there is none). *)

Inductive keyword : Type :=
| Word (w : string)              (* a plain alternative such as SELECT *)
| Pair (w1 w2 : string).         (* GROUP\s+BY, ORDER\s+BY *)

Definition at_word_end (s : pystr) : bool :=
  match s with
  | [] => true
  | c :: _ => negb (is_word c)
  end.

Definition keyword_at (s : pystr) (k : keyword) : bool :=
  match k with
  | Word w =>
      match prefix_ci (str w) s with
      | Some r => at_word_end r
      | None => false
      end
  | Pair w1 w2 =>
      match prefix_ci (str w1) s with
      | Some (c :: r) =>
          is_space c &&
          match prefix_ci (str w2) (lstrip r) with
          | Some r2 => at_word_end r2
          | None => false
          end
      | _ => false
      end
  end.

(** [search]: some position carries a keyword between two boundaries.
    [boundary] tells whether [\b] holds in front of the head of [s]. *)
Fixpoint keyword_search_from (kws : list keyword) (boundary : bool) (s : pystr)
  : bool :=
  (boundary && existsb (keyword_at s) kws) ||
  match s with
  | [] => false
  | c :: s' => keyword_search_from kws (negb (is_word c)) s'
  end.

Definition keyword_search (kws : list keyword) (s : pystr) : bool :=
  keyword_search_from kws true s.

(** [re.search] of a character class in [s]. *)
Definition has_char_in (cls : pystr) (s : pystr) : bool :=
  existsb (fun c => existsb (Ascii.eqb c) cls) s.

Definition FENCE_OPEN : pystr := str "```sql".
Definition FENCE_CLOSE : pystr := str "```".

(** ** Files

    A file holds text.  [Path.read_text] opens the file in text mode with
    universal newlines, so a CR LF pair or a lone CR arrives as one LF;
    [Path.write_text] stores the text it is given (the separator of the
    platform is taken to be LF).  Reading a file that does not exist raises,
    which ends the run: [None].  [writes] records every [write_text] in the
    order in which it happened. *)

Record filesystem : Type := FS {
  files : gmap string pystr;
  writes : list (string * pystr)
}.

Fixpoint universal_newlines (s : pystr) : pystr :=
  match s with
  | [] => []
  | c :: s' =>
      if Ascii.eqb c CR then
        match s' with
        | c2 :: s'' =>
            if Ascii.eqb c2 LF
            then LF :: universal_newlines s''
            else LF :: universal_newlines s'
        | [] => [LF]
        end
      else c :: universal_newlines s'
  end.

Definition read_text (p : string) (σ : filesystem) : option pystr :=
  universal_newlines <$> files σ !! p.

Definition write_text (p : string) (t : pystr) (σ : filesystem) : filesystem :=
  FS (<[p := t]> (files σ)) (writes σ ++ [(p, t)]).

(** [path.with_suffix(path.suffix + ext)]: the name with [ext] appended. *)
Definition with_added_suffix (p ext : string) : string := (p +:+ ext)%string.

(** * scripts/fix_divs_and_blockquotes_sql.py *)

Module FixDivs.

Definition SQL_KEYWORDS : list keyword :=
  [ Word "SELECT"; Word "INSERT"; Word "UPDATE"; Word "DELETE"; Word "CREATE";
    Word "WITH"; Word "FROM"; Word "WHERE"; Pair "GROUP" "BY";
    Pair "ORDER" "BY"; Word "JOIN"; Word "HAVING"; Word "UNION";
    Word "VALUES"; Word "CAST"; Word "SUM"; Word "AVG"; Word "COUNT";
    Word "MIN"; Word "MAX" ].

(** The class [[,();=*<>\\]]. *)
Definition SQL_PUNCTUATION : pystr := str ",();=*<>\".

(** *** DIV_IN_CODE_RE

    [```sql\s*(<div[^>]*?text-align:[^>]*?>.*?</div>)\s*```] under
    [re.S | re.I], tried at the head of [s].

    - [\s*] is followed by a literal that is no space, so it takes the whole
      run of spaces.
    - Neither [[^>]*?] can step over a [>], so the [>] of the pattern is the
      first [>] after [<div], and [text-align:] has to occur before it;
      which occurrence is taken does not change the group.
    - [.*?] is lazy and crosses lines: the closing tag is the first
      [</div>] that is followed by spaces and the closing fence. *)

Fixpoint until_gt (s : pystr) : option (pystr * pystr) :=
  match s with
  | [] => None
  | c :: s' =>
      if Ascii.eqb c ">" then Some ([], s')
      else match until_gt s' with
           | Some (a, r) => Some (c :: a, r)
           | None => None
           end
  end.

(** [</div>\s*```] at the head of [s]: what follows the fence. *)
Definition closes_here (s : pystr) : option pystr :=
  match prefix_ci (str "</div>") s with
  | Some r => prefix_cs FENCE_CLOSE (lstrip r)
  | None => None
  end.

(** [.*?</div>\s*```]: the characters up to and including the closing tag,
    and what follows the fence. *)
Fixpoint find_close (s : pystr) : option (pystr * pystr) :=
  match s with
  | [] => None
  | c :: s' =>
      match closes_here s with
      | Some rest => Some (firstn 6 s, rest)
      | None =>
          match find_close s' with
          | Some (b, rest) => Some (c :: b, rest)
          | None => None
          end
      end
  end.

(** A match at the head of [s]: group 1 and the text after the match. *)
Definition div_in_code_match (s : pystr) : option (pystr * pystr) :=
  match prefix_ci FENCE_OPEN s with
  | None => None
  | Some s1 =>
      let s2 := lstrip s1 in
      match prefix_ci (str "<div") s2 with
      | None => None
      | Some s3 =>
          match until_gt s3 with
          | None => None
          | Some (attrs, s4) =>
              if contains_ci (str "text-align:") attrs then
                match find_close s4 with
                | Some (body, rest) =>
                    Some (firstn 4 s2 ++ attrs ++ ">"%char :: body, rest)
                | None => None
                end
              else None
          end
      end
  end.

Fixpoint contains_div_in_code (text : pystr) : bool :=
  match div_in_code_match text with
  | Some _ => true
  | None => match text with
            | [] => false
            | _ :: t' => contains_div_in_code t'
            end
  end.

Lemma prefix_ci_length p s r :
  prefix_ci p s = Some r -> length s = length p + length r.
Proof.
  revert s; induction p as [|a p IH]; intros [|b s]; simpl; try congruence.
  - intros [= <-]; reflexivity.
  - intros [= <-]; reflexivity.
  - destruct (eq_ci a b); [|congruence]. intros H; apply IH in H; lia.
Qed.

Lemma prefix_cs_length p s r :
  prefix_cs p s = Some r -> length s = length p + length r.
Proof.
  revert s; induction p as [|a p IH]; intros [|b s]; simpl; try congruence.
  - intros [= <-]; reflexivity.
  - intros [= <-]; reflexivity.
  - destruct (Ascii.eqb a b); [|congruence]. intros H; apply IH in H; lia.
Qed.

Lemma lstrip_length s : length (lstrip s) <= length s.
Proof. induction s as [|c s IH]; simpl; [lia|]. destruct (is_space c); simpl; lia. Qed.

Lemma until_gt_length s a r :
  until_gt s = Some (a, r) -> length s = length a + 1 + length r.
Proof.
  revert a r; induction s as [|c s IH]; simpl; intros a r; [congruence|].
  destruct (Ascii.eqb c ">").
  - intros [= <- <-]; simpl; lia.
  - destruct (until_gt s) as [[a' r']|]; [|congruence].
    intros [= <- <-]. specialize (IH _ _ eq_refl). simpl; lia.
Qed.

Lemma closes_here_length s r : closes_here s = Some r -> length r < length s.
Proof.
  unfold closes_here. destruct (prefix_ci _ s) as [r1|] eqn:H1; [|congruence].
  intros H2. apply prefix_ci_length in H1. apply prefix_cs_length in H2.
  pose proof (lstrip_length r1). simpl in *. lia.
Qed.

Lemma find_close_length s b r : find_close s = Some (b, r) -> length r < length s.
Proof.
  revert b r; induction s as [|c s IH]; simpl; intros b r; [congruence|].
  destruct (closes_here (c :: s)) as [r1|] eqn:H1.
  - intros [= <- <-]. apply closes_here_length in H1. exact H1.
  - destruct (find_close s) as [[b' r']|]; [|congruence].
    intros [= <- <-]. specialize (IH _ _ eq_refl). simpl; lia.
Qed.

Lemma div_in_code_match_length s g r :
  div_in_code_match s = Some (g, r) -> length r < length s.
Proof.
  unfold div_in_code_match.
  destruct (prefix_ci FENCE_OPEN s) as [s1|] eqn:H1; [|congruence].
  destruct (prefix_ci _ (lstrip s1)) as [s3|] eqn:H3; [|congruence].
  destruct (until_gt s3) as [[attrs s4]|] eqn:H4; [|congruence].
  destruct (contains_ci _ attrs); [|congruence].
  destruct (find_close s4) as [[body rest]|] eqn:H5; [|congruence].
  intros [= <- <-].
  apply prefix_ci_length in H1, H3. apply until_gt_length in H4.
  apply find_close_length in H5. pose proof (lstrip_length s1). lia.
Qed.

(** [DIV_IN_CODE_RE.sub(lambda m: m.group(1), text)]: scan from the left;
    where the pattern matches, emit group 1 and go on after the match,
    elsewhere copy one character. *)
Equations? remove_div_code_blocks (text : pystr) : pystr by wf (length text) lt :=
  remove_div_code_blocks [] := [];
  remove_div_code_blocks (c :: t') with inspect (div_in_code_match (c :: t')) := {
    | exist _ (Some (g, rest)) Hm => g ++ remove_div_code_blocks rest
    | exist _ None _ => c :: remove_div_code_blocks t' }.
Proof.
  apply div_in_code_match_length in Hm. exact Hm.
Qed.


(** *** is_blockquote_sql_line

    [re.match] of: start, [\s*], the marker [>], [\s*], an optional group
    [.*\S.*], [$].  Both [\s*] are followed by
    something that is no space ([>], then [\S] inside the group or the end),
    so each takes its whole run of spaces.  [.] stops at a line feed and [$]
    holds at the end or in front of one last line feed: what is left after
    the spaces is either nothing (the group does not take part, [inner] is
    empty) or one stretch without line feed that reaches the end, or that
    last line feed, and is the group. *)

Fixpoint until_lf (s : pystr) : pystr * pystr :=
  match s with
  | [] => ([], [])
  | c :: s' =>
      if Ascii.eqb c LF then ([], s)
      else let (g, t) := until_lf s' in (c :: g, t)
  end.

Definition at_dollar (t : pystr) : bool :=
  match t with
  | [] => true
  | [c] => Ascii.eqb c LF
  | _ => false
  end.

Definition sql_like (inner : pystr) : bool :=
  keyword_search SQL_KEYWORDS inner || has_char_in SQL_PUNCTUATION inner.

Definition is_blockquote_sql_line (s : pystr) : option pystr :=
  match lstrip s with
  | c :: after_marker =>
      if Ascii.eqb c ">" then
        match lstrip after_marker with
        | [] => Some []
        | r =>
            let (inner, t) := until_lf r in
            if at_dollar t then
              if sql_like inner then Some inner else None
            else None
        end
      else None
  | [] => None
  end.

(** *** convert_blockquote_sequences *)

(** The inner [while j < n] loop, started at [lines[j:]]: [sql_lines] and
    [saw_nonempty]; [j] has advanced by the length of [sql_lines]. *)
Fixpoint collect (lines : list pystr) : list pystr * bool :=
  match lines with
  | [] => ([], false)
  | l :: ls =>
      match is_blockquote_sql_line l with
      | None => ([], false)
      | Some r =>
          let (sql_lines, saw_nonempty) := collect ls in
          (r :: sql_lines, negb (is_empty r) || saw_nonempty)
      end
  end.

(** The loop that pops [sql_lines[0]] while it is the empty string. *)
Fixpoint pop_leading_empty (sql_lines : list pystr) : list pystr :=
  match sql_lines with
  | [] :: rest => pop_leading_empty rest
  | _ => sql_lines
  end.

(** The loop that pops [sql_lines[-1]] while it is the empty string. *)
Fixpoint pop_trailing_empty (sql_lines : list pystr) : list pystr :=
  match sql_lines with
  | [] => []
  | x :: rest =>
      match pop_trailing_empty rest with
      | [] => if is_empty x then [] else [x]
      | kept => x :: kept
      end
  end.

(** What one pass of the outer loop appends to [out] once a run has been
    collected from [lines] (which stands for [lines[i:]]). *)
Definition emit_run (lines : list pystr) : list pystr :=
  let (sql_lines, saw_nonempty) := collect lines in
  if saw_nonempty then
    FENCE_OPEN :: pop_trailing_empty (pop_leading_empty sql_lines)
      ++ [FENCE_CLOSE]
  else firstn (length sql_lines) lines.

Lemma collect_first l ls r :
  is_blockquote_sql_line l = Some r ->
  length (fst (collect (l :: ls))) = S (length (fst (collect ls))).
Proof.
  intros H. simpl. rewrite H. destruct (collect ls); reflexivity.
Qed.

(** The outer [while i < n] loop on [lines[i:]]; the result is what it
    appends to [out] from there on. *)
Equations? convert_lines (lines : list pystr) : list pystr
  by wf (length lines) lt :=
  convert_lines [] := [];
  convert_lines (l :: ls) with inspect (is_blockquote_sql_line l) := {
    | exist _ None _ => l :: convert_lines ls
    | exist _ (Some r) Hres =>
        emit_run (l :: ls)
          ++ convert_lines (skipn (length (fst (collect (l :: ls)))) (l :: ls)) }.
Proof.
  rewrite Hres. destruct (collect ls) as [sql_lines saw_nonempty]. simpl.
  rewrite length_skipn. lia.
Qed.

Definition convert_blockquote_sequences (text : pystr) : pystr :=
  let lines := splitlines text in
  let out := convert_lines lines in
  join_lf out ++ (if ends_with_lf text then [LF] else []).

(** The two steps that [normalize_file] applies to the text it has read. *)
Definition fix_text (text : pystr) : pystr :=
  convert_blockquote_sequences (remove_div_code_blocks text).

Definition BACKUP_SUFFIX : string := ".fixbak".

(** [normalize_file]: [None] when reading fails, else the returned flag and
    the files afterwards. *)
Definition normalize_file (path : string) (σ : filesystem)
  : option (bool * filesystem) :=
  match read_text path σ with
  | None => None
  | Some orig =>
      let text := remove_div_code_blocks orig in
      let text := convert_blockquote_sequences text in
      if negb (bool_decide (text = orig)) then
        let bak := with_added_suffix path BACKUP_SUFFIX in
        let σ1 := write_text bak orig σ in
        let σ2 := write_text path text σ1 in
        Some (true, σ2)
      else Some (false, σ)
  end.

End FixDivs.


(** * scripts/normalize_bold_sql.py *)

Module NormalizeBold.

Definition SQL_KEYWORDS : list keyword :=
  [ Word "SELECT"; Word "INSERT"; Word "UPDATE"; Word "DELETE"; Word "CREATE";
    Word "WITH"; Word "FROM"; Word "WHERE"; Pair "GROUP" "BY";
    Pair "ORDER" "BY"; Word "JOIN"; Word "HAVING"; Word "UNION";
    Word "VALUES" ].

(** The class [[,();=*<>]]. *)
Definition BOLD_PUNCTUATION : pystr := str ",();=*<>".

Definition looks_like_sql (inner : pystr) : bool :=
  keyword_search SQL_KEYWORDS inner || has_char_in BOLD_PUNCTUATION inner.

(** *** is_bold_sql_line

    [re.match] of: start, [\s*], an optional group [>\s*], two asterisks,
    the lazy group [.*?], two asterisks, [\s*], [$].

    - The leading [\s*] and the one after the marker are followed by [>] or
      an asterisk, so each takes its whole run of spaces; a [>] found there
      can only be taken by the optional group.
    - [\s*$] after the closing asterisks holds exactly when nothing but
      spaces follows (a line feed is a space).  An asterisk is no space, so
      the closing pair is made of the last two characters that are no
      spaces: the lazy group has one candidate only, and it must not hold a
      line feed because [.] does not take one. *)

Definition rstrip (s : pystr) : pystr := rev (lstrip (rev s)).

(** [(.*?)\*\*\s*$] on what follows the opening asterisks: group 2. *)
Definition closing_bold (rest : pystr) : option pystr :=
  match rev (rstrip rest) with
  | a :: b :: inner_rev =>
      if Ascii.eqb a "*" && Ascii.eqb b "*" then
        let inner := rev inner_rev in
        if existsb (Ascii.eqb LF) inner then None else Some inner
      else None
  | _ => None
  end.

(** Everything of the pattern in front of group 2. *)
Definition opening_bold (line : pystr) : option pystr :=
  let s := lstrip line in
  let s := match s with
           | c :: after_marker =>
               if Ascii.eqb c ">" then lstrip after_marker else s
           | [] => s
           end in
  prefix_cs (str "**") s.

Definition is_bold_sql_line (line : pystr) : option pystr :=
  match opening_bold line with
  | None => None
  | Some rest =>
      match closing_bold rest with
      | None => None
      | Some inner =>
          if contains_ci (str "<div") inner || contains_ci (str "</div>") inner
          then None
          else if looks_like_sql inner then Some inner
          else None
      end
  end.

(** [re.match] of [^\s*```] on a line: a fence delimiter line. *)
Definition is_fence_line (line : pystr) : bool :=
  match prefix_cs FENCE_CLOSE (lstrip line) with
  | Some _ => true
  | None => false
  end.

(** The inner [while j < n] loop, started at [lines[i+1:]]: what it appends
    to [sql_lines]; [j] has advanced by the length of the result. *)
Fixpoint collect_bold_run (lines : list pystr) : list pystr :=
  match lines with
  | [] => []
  | l :: ls =>
      match is_bold_sql_line l with
      | None => []
      | Some nxt => nxt :: collect_bold_run ls
      end
  end.

(** [out_lines] and [changed] as a pair: lines put in front, flag kept. *)
Definition emit (ls : list pystr) (r : list pystr * bool) : list pystr * bool :=
  (ls ++ fst r, snd r).

(** A fenced block put in front, [changed] set. *)
Definition emit_block (sql_lines : list pystr) (r : list pystr * bool)
  : list pystr * bool :=
  (FENCE_OPEN :: sql_lines ++ FENCE_CLOSE :: fst r, true).

(** The [while i < n] loop of [normalize_file] on [lines[i:]] with the current
    [in_fence]: what it appends to [out_lines] from there on, and whether it
    sets [changed]. *)
Equations? scan (in_fence : bool) (lines : list pystr) : list pystr * bool
  by wf (length lines) lt :=
  scan in_fence [] := ([], false);
  scan in_fence (line :: ls) with is_fence_line line := {
    | true => emit [line] (scan (negb in_fence) ls)
    | false with in_fence := {
      | true => emit [line] (scan in_fence ls)
      | false with is_bold_sql_line line := {
        | Some m =>
            emit_block (m :: collect_bold_run ls)
              (scan false (skipn (length (collect_bold_run ls)) ls))
        | None => emit [line] (scan false ls) } } }.
Proof.
  all: try (simpl; lia).
  rewrite length_skipn. lia.
Qed.

Definition BAK_SUFFIX : string := ".bak".

(** The text that [normalize_file] writes back when [changed] is set. *)
Definition new_text (out_lines : list pystr) : pystr := join_lf out_lines ++ [LF].

(** The text of the file after [normalize_file], for a file whose text was
    [text]: rewritten when [changed] is set, left alone otherwise. *)
Definition normalized_text (text : pystr) : pystr :=
  let (out_lines, changed) := scan false (splitlines text) in
  if changed then new_text out_lines else text.

Definition normalize_file (path : string) (σ : filesystem)
  : option (bool * filesystem) :=
  match read_text path σ with
  | None => None
  | Some text =>
      let lines := splitlines text in
      let (out_lines, changed) := scan false lines in
      if changed then
        let bak := with_added_suffix path BAK_SUFFIX in
        let σ1 := write_text bak text σ in
        let σ2 := write_text path (new_text out_lines) σ1 in
        Some (changed, σ2)
      else Some (changed, σ)
  end.

End NormalizeBold.


(** * The entry points

    Both scripts end with a [main] that walks the markdown files of the
    lesson directory.  The directory listing is the environment's: the
    sorted result of [lessons.glob] for the pattern [*.md] is the argument
    [md_files], and for the bold script so is the result of
    [lessons.is_dir()].  What [print] writes is a list of lines.  A run
    either ends with an exit status, or is ended by the exception of a
    failed read; in both cases the lines printed and the files are those
    of that moment. *)

Inductive outcome : Type :=
| Exit (status : nat) (stdout : list string) (σ : filesystem)
| Raised (stdout : list string) (σ : filesystem).

(** The state of the loop over the files: it has run to its end, or an
    exception has left it. *)
Inductive loop_result : Type :=
| Done (changed : bool) (stdout : list string) (σ : filesystem)
| Failed (stdout : list string) (σ : filesystem).

Fixpoint until_slash (s : pystr) : pystr :=
  match s with
  | [] => []
  | c :: s' => if Ascii.eqb c "/" then [] else c :: until_slash s'
  end.

(** [p.name]: the final component of a path. *)
Definition path_name (p : string) : string :=
  string_of_list_ascii (rev (until_slash (rev (list_ascii_of_string p)))).

(** The pattern [*.md] of the glob, which is matched against the name. *)
Definition matches_md (p : string) : bool :=
  match rev (list_ascii_of_string (path_name p)) with
  | d :: m :: dot :: _ =>
      Ascii.eqb dot "." && Ascii.eqb m "m" && Ascii.eqb d "d"
  | _ => false
  end.

Module FixDivsMain.

(** The [for p in sorted(...)] loop on the files still to visit, with the
    current [changed] and what has been printed. *)
Fixpoint loop (md_files : list string) (changed : bool) (stdout : list string)
  (σ : filesystem) : loop_result :=
  match md_files with
  | [] => Done changed stdout σ
  | p :: rest =>
      let stdout := stdout ++ ["Processing: " +:+ path_name p]%string in
      match FixDivs.normalize_file p σ with
      | None => Failed stdout σ
      | Some (true, σ') =>
          loop rest true (stdout ++ ["  -> fixed " +:+ path_name p]%string) σ'
      | Some (false, σ') => loop rest changed stdout σ'
      end
  end.

Definition main (md_files : list string) (σ : filesystem) : outcome :=
  match loop md_files false [] σ with
  | Failed stdout σ' => Raised stdout σ'
  | Done changed stdout σ' =>
      Exit 0 (if changed then stdout
              else stdout ++ ["No changes made."]%string) σ'
  end.

End FixDivsMain.

Module NormalizeBoldMain.

(** The [for p in md_files] loop; this script prints the whole path in its
    first message. *)
Fixpoint loop (md_files : list string) (any_changed : bool)
  (stdout : list string) (σ : filesystem) : loop_result :=
  match md_files with
  | [] => Done any_changed stdout σ
  | p :: rest =>
      let stdout := stdout ++ ["Processing: " +:+ p]%string in
      match NormalizeBold.normalize_file p σ with
      | None => Failed stdout σ
      | Some (true, σ') =>
          loop rest true
            (stdout ++ ["  -> normalized " +:+ path_name p]%string) σ'
      | Some (false, σ') => loop rest any_changed stdout σ'
      end
  end.

Definition main (lessons : string) (is_dir : bool) (md_files : list string)
  (σ : filesystem) : outcome :=
  if negb is_dir then
    Exit 1 ["Lessons directory not found: " +:+ lessons]%string σ
  else
    match loop md_files false [] σ with
    | Failed stdout σ' => Raised stdout σ'
    | Done any_changed stdout σ' =>
        Exit 0 (if any_changed then stdout
                else stdout ++ ["No changes made."]%string) σ'
    end.

End NormalizeBoldMain.

(** * Vocabulary of the statements *)

Definition FF : ascii := "012"%char.

Definition CLOSE_TAG : pystr := str "</div>".

(** A line as [splitlines] returns it: no line boundary inside. *)
Definition nobreak (l : pystr) : bool :=
  forallb (fun c => negb (is_linebreak c)) l.

(** An entry of [sql_lines] that is not the empty string. *)
Definition nonblank (r : pystr) : bool := negb (is_empty r).

(** A line that a second pass of the blockquote converter leaves alone:
    rejected, or a blank quoted line. *)
Definition quiet (l : pystr) : Prop :=
  FixDivs.is_blockquote_sql_line l = None \/
  FixDivs.is_blockquote_sql_line l = Some [].



(** The state of [in_fence] after the bold-SQL loop has gone through
    [lines]. *)
Definition fence_after (in_fence : bool) (lines : list pystr) : bool :=
  fold_left (fun b l => if NormalizeBold.is_fence_line l then negb b else b)
    lines in_fence.

Fixpoint count_fences (lines : list pystr) : nat :=
  match lines with
  | [] => 0
  | l :: ls =>
      (if NormalizeBold.is_fence_line l then 1 else 0) + count_fences ls
  end.

(** A line wrapped in a pair of double asterisks. *)
Definition bold_wrap (inner : pystr) : pystr := str "**" ++ inner ++ str "**".

(** Two partial results of the bold-SQL loop, one after the other. *)
Definition then_scan (r1 r2 : list pystr * bool) : list pystr * bool :=
  (fst r1 ++ fst r2, snd r1 || snd r2).



(** A text whose only line boundaries are line feeds. *)
Definition lf_only (t : pystr) : bool :=
  forallb (fun c => negb (is_linebreak c) || Ascii.eqb c LF) t.

(** [quiet] as a test: the quoted-line classifier rejects the line or finds
    it blank. *)
Definition quiet_line (l : pystr) : bool :=
  match FixDivs.is_blockquote_sql_line l with
  | None => true
  | Some r => is_empty r
  end.

(** The landmarks of the div-in-code pattern, each in any letter case. *)
Definition landmarks (t : pystr) : bool :=
  contains_ci FENCE_OPEN t && contains_ci (str "<div") t &&
  contains_ci (str "text-align:") t && contains_ci CLOSE_TAG t.

(** Where an output line of a loop comes from: a line of the input, one of
    the two fence markers, or the content that [classify] extracts from a
    line of the input. *)
Definition from_input (classify : pystr -> option pystr) (L : list pystr)
  (o : pystr) : Prop :=
  o ∈ L \/ o = FENCE_OPEN \/ o = FENCE_CLOSE \/
  exists l, l ∈ L /\ classify l = Some o.

(** Every match of the div-in-code pattern that begins in [pre], in the text
    [pre ++ tail], ends in [pre]: what follows the match holds [tail]
    whole. *)
Fixpoint matches_end_before (pre tail : pystr) : bool :=
  match pre with
  | [] => true
  | _ :: pre' =>
      match FixDivs.div_in_code_match (pre ++ tail) with
      | Some (_, rest) => length tail <=? length rest
      | None => true
      end && matches_end_before pre' tail
  end.

(** The loop of either [main], with the procedure applied to each file and
    the two messages left open. *)
Fixpoint visit_files
  (normalize : string -> filesystem -> option (bool * filesystem))
  (msg_processing msg_changed : string -> string)
  (md_files : list string) (changed : bool) (stdout : list string)
  (σ : filesystem) : loop_result :=
  match md_files with
  | [] => Done changed stdout σ
  | p :: rest =>
      let stdout := stdout ++ [msg_processing p] in
      match normalize p σ with
      | None => Failed stdout σ
      | Some (true, σ') =>
          visit_files normalize msg_processing msg_changed rest true
            (stdout ++ [msg_changed p]) σ'
      | Some (false, σ') =>
          visit_files normalize msg_processing msg_changed rest changed
            stdout σ'
      end
  end.

(** Whether a script changes the file [p] of [σ], by the test [differs] of
    the script on the text read. *)
Definition file_changes (differs : pystr -> bool) (σ : filesystem)
  (p : string) : bool :=
  match read_text p σ with
  | Some orig => differs orig
  | None => false
  end.

(** The lines that a complete run prints. *)
Definition run_log (differs : pystr -> bool)
  (msg_processing msg_changed : string -> string)
  (σ : filesystem) (md_files : list string) : list string :=
  flat_map (fun p => msg_processing p ::
                     if file_changes differs σ p then [msg_changed p] else [])
    md_files
  ++ (if existsb (file_changes differs σ) md_files then []
      else ["No changes made."%string]).

(** The tests of the two scripts. *)
Definition fix_differs (orig : pystr) : bool :=
  negb (bool_decide (FixDivs.fix_text orig = orig)).

Definition bold_differs (orig : pystr) : bool :=
  snd (NormalizeBold.scan false (splitlines orig)).

Definition fix_processing (p : string) : string :=
  ("Processing: " +:+ path_name p)%string.
Definition fix_fixed (p : string) : string :=
  ("  -> fixed " +:+ path_name p)%string.
Definition bold_processing (p : string) : string :=
  ("Processing: " +:+ p)%string.
Definition bold_normalized (p : string) : string :=
  ("  -> normalized " +:+ path_name p)%string.

(** The text that the bold script writes back for the text [orig]. *)
Definition bold_new (orig : pystr) : pystr :=
  NormalizeBold.new_text (fst (NormalizeBold.scan false (splitlines orig))).

(** Sample inputs. *)

Definition lesson_text : pystr :=
  str "> SELECT 1" ++ LF :: str "**SELECT 2;**" ++ [LF].

Definition lesson_files : filesystem :=
  FS {[ "lesson.md"%string := lesson_text ]} [].







Definition two_lessons : filesystem :=
  FS {[ "course/lessons/a.md"%string := lesson_text;
        "course/lessons/b.md"%string := str "plain" ++ [LF] ]} [].

Definition plain_lesson : pystr :=
  str "# Title" ++ LF :: str ">" ++ LF :: str "> just a quote" ++
  LF :: LF :: str "text, with (punctuation);" ++ [LF].


(** * Properties of the bold-SQL scan *)

Section BoldScan.
Import NormalizeBold.


Lemma emit_then ls r1 r2 : then_scan (emit ls r1) r2 = emit ls (then_scan r1 r2).
Proof. unfold then_scan, emit; simpl. rewrite <- app_assoc. reflexivity. Qed.

Lemma emit_block_then ls r1 r2 :
  then_scan (emit_block ls r1) r2 = emit_block ls (then_scan r1 r2).
Proof.
  unfold then_scan, emit_block; simpl.
  rewrite <- app_assoc. reflexivity.
Qed.

Lemma prefix_cs_app p s r : prefix_cs p s = Some r -> s = p ++ r.
Proof.
  revert s; induction p as [|a p IH]; intros [|b s]; simpl; try congruence.
  destruct (Ascii.eqb a b) eqn:E; [|congruence].
  apply Ascii.eqb_eq in E; subst b. intros H; apply IH in H. congruence.
Qed.

Lemma fence_line_not_bold l : is_fence_line l = true -> is_bold_sql_line l = None.
Proof.
  unfold is_fence_line, is_bold_sql_line, opening_bold.
  destruct (prefix_cs FENCE_CLOSE (lstrip l)) as [r|] eqn:H; [|discriminate].
  apply prefix_cs_app in H. rewrite H. reflexivity.
Qed.

Lemma scan_fence b f ls :
  is_fence_line f = true -> scan b (f :: ls) = emit [f] (scan (negb b) ls).
Proof. intros H. simp scan. rewrite H. reflexivity. Qed.

Lemma scan_inside l ls :
  is_fence_line l = false -> scan true (l :: ls) = emit [l] (scan true ls).
Proof. intros H. simp scan. rewrite H. reflexivity. Qed.

Lemma scan_plain l ls :
  is_fence_line l = false -> is_bold_sql_line l = None ->
  scan false (l :: ls) = emit [l] (scan false ls).
Proof. intros H1 H2. simp scan. rewrite H1. simpl. rewrite H2. reflexivity. Qed.

Lemma scan_bold l m ls :
  is_bold_sql_line l = Some m ->
  scan false (l :: ls) =
  emit_block (m :: collect_bold_run ls) (scan false (skipn (length (collect_bold_run ls)) ls)).
Proof.
  intros H. simp scan.
  destruct (is_fence_line l) eqn:Hf.
  - apply fence_line_not_bold in Hf. congruence.
  - simpl. rewrite H. reflexivity.
Qed.

Lemma scan_not_bold b l ls :
  is_bold_sql_line l = None ->
  scan b (l :: ls) =
  emit [l] (scan (if is_fence_line l then negb b else b) ls).
Proof.
  intros H. destruct (is_fence_line l) eqn:Hf.
  - apply scan_fence; assumption.
  - destruct b; [apply scan_inside | apply scan_plain]; assumption.
Qed.

Lemma bold_collect_length ls : length (collect_bold_run ls) <= length ls.
Proof.
  induction ls as [|l ls IH]; simpl; [lia|].
  destruct (is_bold_sql_line l); simpl; lia.
Qed.

Lemma bold_collect_app_stop ls x rest :
  is_bold_sql_line x = None -> collect_bold_run (ls ++ x :: rest) = collect_bold_run ls.
Proof.
  intros Hx. induction ls as [|l ls IH]; simpl.
  - rewrite Hx. reflexivity.
  - destruct (is_bold_sql_line l); [rewrite IH|]; reflexivity.
Qed.

Lemma bold_line_not_fence l m : is_bold_sql_line l = Some m -> is_fence_line l = false.
Proof.
  intros H. destruct (is_fence_line l) eqn:Hf; [|reflexivity].
  apply fence_line_not_bold in Hf. congruence.
Qed.

(** The lines of a run are no fence delimiters: the state is the same before
    and after the run. *)
Lemma fence_after_collect b ls :
  fence_after b (skipn (length (collect_bold_run ls)) ls) = fence_after b ls.
Proof.
  induction ls as [|l ls IH]; simpl; [reflexivity|].
  destruct (is_bold_sql_line l) as [m|] eqn:Hl; simpl; [|reflexivity].
  rewrite (bold_line_not_fence _ _ Hl). exact IH.
Qed.

(** Lines inside a fence: copied, whatever they look like. *)
Lemma scan_inside_body body rest :
  forallb (fun l => negb (is_fence_line l)) body = true ->
  scan true (body ++ rest) = emit body (scan true rest).
Proof.
  induction body as [|l body IH]; simpl; intros H.
  - destruct (scan true rest); reflexivity.
  - apply andb_prop in H as [H1 H2]. apply negb_true_iff in H1.
    rewrite scan_inside by assumption. rewrite IH by assumption.
    unfold emit; simpl. reflexivity.
Qed.

(** A line that is no bold-SQL line ends every run before it: the loop on
    [pre ++ x :: rest] is the loop on [pre] followed by the loop on
    [x :: rest] in the state that [pre] leaves. *)
Lemma scan_app_stop b pre x rest :
  is_bold_sql_line x = None ->
  scan b (pre ++ x :: rest) =
  then_scan (scan b pre) (scan (fence_after b pre) (x :: rest)).
Proof.
  intros Hx. remember (length pre) as n eqn:Hn.
  revert b pre Hn. induction n as [n IH] using lt_wf_ind. intros b pre Hn.
  destruct pre as [|l ls].
  - simpl. rewrite scan_equation_1. unfold then_scan; simpl.
    destruct (scan b (x :: rest)); reflexivity.
  - simpl app. destruct (is_bold_sql_line l) as [m|] eqn:Hl.
    + assert (Hf : is_fence_line l = false).
      { destruct (is_fence_line l) eqn:Hf; [|reflexivity].
        apply fence_line_not_bold in Hf. congruence. }
      destruct b.
      * rewrite !scan_inside by assumption.
        rewrite (IH (length ls)) by (simpl in Hn; lia || reflexivity).
        rewrite emit_then. simpl. rewrite Hf. reflexivity.
      * rewrite !(scan_bold _ _ _ Hl).
        rewrite bold_collect_app_stop by assumption.
        pose proof (bold_collect_length ls) as Hlen.
        rewrite skipn_app.
        replace (length (collect_bold_run ls) - length ls) with 0 by lia.
        simpl skipn.
        rewrite (IH (length (skipn (length (collect_bold_run ls)) ls)));
          [| rewrite length_skipn; simpl in Hn; lia | reflexivity].
        rewrite emit_block_then. simpl fence_after. rewrite Hf.
        rewrite fence_after_collect. reflexivity.
    + rewrite !(scan_not_bold _ _ _ Hl).
      rewrite (IH (length ls)) by (simpl in Hn; lia || reflexivity).
      rewrite emit_then. reflexivity.
Qed.

Lemma scan_nil b : scan b [] = ([], false).
Proof. apply scan_equation_1. Qed.

Lemma fence_after_app b l1 l2 :
  fence_after b (l1 ++ l2) = fence_after (fence_after b l1) l2.
Proof. unfold fence_after. apply fold_left_app. Qed.

(** When the lines before end outside a run, the loop splits there. *)
Lemma scan_app_last b pre rest :
  (forall x, last pre = Some x -> is_bold_sql_line x = None) ->
  scan b (pre ++ rest) = then_scan (scan b pre) (scan (fence_after b pre) rest).
Proof.
  destruct pre as [|l0 pre0] using rev_ind; intros H.
  - simpl. rewrite scan_nil. unfold then_scan; simpl.
    destruct (scan b rest); reflexivity.
  - clear IHpre0. assert (Hx : is_bold_sql_line l0 = None).
    { apply H. apply last_snoc. }
    rewrite <- app_assoc. simpl app.
    rewrite !scan_app_stop by assumption.
    rewrite !scan_not_bold by assumption.
    rewrite fence_after_app.
    set (b1 := fence_after b pre0).
    rewrite scan_nil. unfold then_scan, emit; simpl.
    rewrite <- !app_assoc. simpl. rewrite orb_false_r.
    reflexivity.
Qed.

Lemma fence_after_count b ls :
  fence_after b ls = xorb b (Nat.odd (count_fences ls)).
Proof.
  revert b; induction ls as [|l ls IH]; intros b; simpl.
  - destruct b; reflexivity.
  - rewrite IH. destruct (is_fence_line l); simpl.
    + rewrite Nat.odd_succ, <- Nat.negb_odd. destruct b, (Nat.odd _); reflexivity.
    + reflexivity.
Qed.

Lemma count_fences_app l1 l2 :
  count_fences (l1 ++ l2) = count_fences l1 + count_fences l2.
Proof. induction l1 as [|l l1 IH]; simpl; [reflexivity|]. rewrite IH. lia. Qed.

Lemma count_fences_none ls :
  forallb (fun l => negb (is_fence_line l)) ls = true -> count_fences ls = 0.
Proof.
  induction ls as [|l ls IH]; simpl; [reflexivity|]. intros H.
  apply andb_prop in H as [H1 H2]. apply negb_true_iff in H1.
  rewrite H1, IH by assumption. reflexivity.
Qed.

Lemma bold_wrap_classified inner :
  existsb (Ascii.eqb LF) inner = false ->
  contains_ci (str "<div") inner || contains_ci (str "</div>") inner = false ->
  looks_like_sql inner = true ->
  is_bold_sql_line (bold_wrap inner) = Some inner.
Proof.
  intros Hlf Hdiv Hsql. unfold is_bold_sql_line, bold_wrap.
  change (opening_bold (str "**" ++ inner ++ str "**"))
    with (Some (inner ++ str "**")).
  unfold closing_bold, rstrip. rewrite rev_involutive.
  rewrite rev_app_distr. simpl.
  rewrite rev_involutive, Hlf. simpl in Hdiv.
  rewrite Hdiv, Hsql. reflexivity.
Qed.

(** C3: a line made of content wrapped in double asterisks, where the
    content passes the SQL heuristic and holds no line feed and no div tag
    (opening or closing, in any letter case), which the scan reaches outside
    any fence and which has no bold-SQL line right before or right after it,
    is classified with its content extracted as it stands and is replaced by
    exactly three lines: the sql fence opener, the content, the fence closer;
    the lines around it are processed as they would be on their own. *)
Theorem bold_single_line_fenced (pre post : list pystr) (inner : pystr)
  (Hlf : existsb (Ascii.eqb LF) inner = false)
  (Hdiv : contains_ci (str "<div") inner || contains_ci (str "</div>") inner
          = false)
  (Hsql : looks_like_sql inner = true)
  (Hpre : forall x, last pre = Some x -> is_bold_sql_line x = None)
  (Hfence : fence_after false pre = false)
  (Hpost : forall x, head post = Some x -> is_bold_sql_line x = None) :
  is_bold_sql_line (bold_wrap inner) = Some inner /\
  scan false (pre ++ bold_wrap inner :: post) =
  then_scan (scan false pre)
    (then_scan ([FENCE_OPEN; inner; FENCE_CLOSE], true) (scan false post)).
Proof.
  pose proof (bold_wrap_classified inner Hlf Hdiv Hsql) as Hc.
  split; [exact Hc|].
  rewrite scan_app_last by assumption. rewrite Hfence. f_equal.
  rewrite (scan_bold _ _ _ Hc).
  assert (Hnil : collect_bold_run post = []).
  { destruct post as [|x post']; simpl; [reflexivity|].
    rewrite (Hpost x eq_refl). reflexivity. }
  rewrite Hnil. simpl. unfold emit_block, then_scan. simpl. reflexivity.
Qed.

Lemma bold_single_line_fenced_witness :
  is_bold_sql_line (str "**SELECT 1;**") = Some (str "SELECT 1;") /\
  scan false [str "Query:"; str "**SELECT 1;**"; str "Done."] =
  ([str "Query:"; str "```sql"; str "SELECT 1;"; str "```"; str "Done."], true).
Proof.
  apply (bold_single_line_fenced [str "Query:"] [str "Done."] (str "SELECT 1;")).
  - reflexivity.
  - reflexivity.
  - reflexivity.
  - intros x [= <-]. reflexivity.
  - reflexivity.
  - intros x [= <-]. reflexivity.
Defined.

(** C3 as stated fails for a content that holds a div tag.  Such a content
    can pass the keyword-or-punctuation test, as a query that selects a tag
    and a bold div header do; the classifier rejects the line all the same
    and the scan copies it unchanged, with the changed flag not set. *)
Lemma bold_div_content_counterexample :
  (looks_like_sql (str "SELECT '<div>' AS tag;") = true /\
   existsb (Ascii.eqb LF) (str "SELECT '<div>' AS tag;") = false /\
   is_bold_sql_line (bold_wrap (str "SELECT '<div>' AS tag;")) = None /\
   scan false [bold_wrap (str "SELECT '<div>' AS tag;")] =
     ([bold_wrap (str "SELECT '<div>' AS tag;")], false)) /\
  (looks_like_sql (str "<div align=center>Lesson 1</div>") = true /\
   is_bold_sql_line (bold_wrap (str "<div align=center>Lesson 1</div>"))
     = None /\
   scan false [bold_wrap (str "<div align=center>Lesson 1</div>")] =
     ([bold_wrap (str "<div align=center>Lesson 1</div>")], false)).
Proof. repeat split; reflexivity. Qed.

(** C5: a line that begins with the fence delimiter, after optional spaces,
    flips the in-fence state and is copied; and the lines between a fence
    line met outside a fence and the next fence line are copied as they
    stand, whatever they look like (no hypothesis excludes lines that match
    the bold pattern): they are neither converted nor merged into a run, and
    they do not set the changed flag. *)
Theorem bold_scan_skips_fenced_lines
  (pre body rest : list pystr) (opening closing : pystr)
  (Hstate : fence_after false pre = false)
  (Hopen : is_fence_line opening = true)
  (Hclose : is_fence_line closing = true)
  (Hbody : forallb (fun l => negb (is_fence_line l)) body = true) :
  (forall b ls, scan b (opening :: ls) = emit [opening] (scan (negb b) ls)) /\
  scan false (pre ++ opening :: body ++ closing :: rest) =
  then_scan (scan false pre)
    (emit (opening :: body ++ [closing]) (scan false rest)).
Proof.
  split; [intros b ls; apply scan_fence; exact Hopen|].
  rewrite scan_app_stop by (apply fence_line_not_bold; exact Hopen).
  rewrite Hstate. f_equal.
  rewrite scan_fence by exact Hopen. simpl negb.
  rewrite scan_inside_body by exact Hbody.
  rewrite scan_fence by exact Hclose. simpl negb.
  unfold emit; simpl. rewrite <- app_assoc. reflexivity.
Qed.

Lemma bold_scan_skips_fenced_lines_witness :
  is_bold_sql_line (str "**SELECT 1;**") = Some (str "SELECT 1;") /\
  scan false [str "text"; str "```sql"; str "**SELECT 1;**"; str "  ```";
              str "**SELECT 2;**"] =
  ([str "text"; str "```sql"; str "**SELECT 1;**"; str "  ```";
    str "```sql"; str "SELECT 2;"; str "```"], true).
Proof.
  split; [reflexivity|].
  apply (proj2 (bold_scan_skips_fenced_lines [str "text"] [str "**SELECT 1;**"]
                  [str "**SELECT 2;**"] (str "```sql") (str "  ```")
                  eq_refl eq_refl eq_refl eq_refl)).
Defined.

(** C10: a fence delimiter line is copied and flips the in-fence state in
    either state; and when the input holds an odd number of fence delimiter
    lines, every line after the last of them is copied as it stands and the
    changed flag is the one of the lines before that last delimiter. *)
Theorem bold_scan_unclosed_fence
  (pre tail : list pystr) (f : pystr)
  (Hf : is_fence_line f = true)
  (Htail : forallb (fun l => negb (is_fence_line l)) tail = true)
  (Hodd : Nat.odd (count_fences (pre ++ f :: tail)) = true) :
  (forall b ls, scan b (f :: ls) = emit [f] (scan (negb b) ls)) /\
  scan false (pre ++ f :: tail) = then_scan (scan false pre) (f :: tail, false).
Proof.
  split; [intros b ls; apply scan_fence; exact Hf|].
  rewrite scan_app_stop by (apply fence_line_not_bold; exact Hf).
  assert (Hst : fence_after false pre = false).
  { rewrite fence_after_count. simpl.
    rewrite count_fences_app in Hodd. simpl in Hodd. rewrite Hf in Hodd.
    rewrite (count_fences_none tail Htail) in Hodd.
    replace (count_fences pre + (1 + 0)) with (S (count_fences pre)) in Hodd by lia.
    rewrite Nat.odd_succ, <- Nat.negb_odd in Hodd.
    destruct (Nat.odd (count_fences pre)); [discriminate|reflexivity]. }
  rewrite Hst. f_equal.
  rewrite scan_fence by exact Hf. simpl negb.
  rewrite <- (app_nil_r tail) at 1.
  rewrite scan_inside_body by exact Htail.
  rewrite scan_nil. unfold emit; simpl. rewrite app_nil_r. reflexivity.
Qed.

Lemma bold_scan_unclosed_fence_witness :
  scan false [str "**SELECT 0;**"; str "```"; str "x"; str "```";
              str "   ```sql"; str "**SELECT 1;**"; str "**a, b**"] =
  ([str "```sql"; str "SELECT 0;"; str "```"; str "```"; str "x"; str "```";
    str "   ```sql"; str "**SELECT 1;**"; str "**a, b**"], true).
Proof.
  apply (proj2 (bold_scan_unclosed_fence
                  [str "**SELECT 0;**"; str "```"; str "x"; str "```"]
                  [str "**SELECT 1;**"; str "**a, b**"] (str "   ```sql")
                  eq_refl eq_refl eq_refl)).
Defined.

End BoldScan.

(** * Properties of the blockquote converter *)

Section BlockquoteRuns.
Import FixDivs.

Lemma convert_lines_nil : convert_lines [] = [].
Proof. apply convert_lines_equation_1. Qed.

Lemma convert_lines_skip l ls :
  is_blockquote_sql_line l = None ->
  convert_lines (l :: ls) = l :: convert_lines ls.
Proof.
  intros H. simp convert_lines.
  generalize (inspect (is_blockquote_sql_line l)).
  intros [[r|] e]; simp convert_lines; [congruence|reflexivity].
Qed.

Lemma convert_lines_run l ls r :
  is_blockquote_sql_line l = Some r ->
  convert_lines (l :: ls) =
  emit_run (l :: ls)
    ++ convert_lines (skipn (length (fst (collect (l :: ls)))) (l :: ls)).
Proof.
  intros H. simp convert_lines.
  generalize (inspect (is_blockquote_sql_line l)).
  intros [[r'|] e]; simp convert_lines; [reflexivity|congruence].
Qed.

Lemma bq_collect_length ls : length (fst (collect ls)) <= length ls.
Proof.
  induction ls as [|l ls IH]; simpl; [lia|].
  destruct (is_blockquote_sql_line l); simpl; [|lia].
  destruct (collect ls); simpl in *; lia.
Qed.

Lemma bq_collect_app_stop ls x rest :
  is_blockquote_sql_line x = None -> collect (ls ++ x :: rest) = collect ls.
Proof.
  intros Hx. induction ls as [|l ls IH]; simpl.
  - rewrite Hx. reflexivity.
  - destruct (is_blockquote_sql_line l); [rewrite IH|]; reflexivity.
Qed.

Lemma emit_run_app_stop ls x rest :
  is_blockquote_sql_line x = None -> emit_run (ls ++ x :: rest) = emit_run ls.
Proof.
  intros Hx. unfold emit_run. rewrite bq_collect_app_stop by assumption.
  pose proof (bq_collect_length ls) as Hlen.
  destruct (collect ls) as [sql_lines saw]; simpl in Hlen.
  destruct saw; [reflexivity|].
  rewrite firstn_app. replace (length sql_lines - length ls) with 0 by lia.
  simpl. apply app_nil_r.
Qed.

(** A line that the classifier rejects ends every run before it. *)
Lemma convert_lines_app_stop pre x rest :
  is_blockquote_sql_line x = None ->
  convert_lines (pre ++ x :: rest) = convert_lines pre ++ x :: convert_lines rest.
Proof.
  intros Hx. remember (length pre) as n eqn:Hn.
  revert pre Hn. induction n as [n IH] using lt_wf_ind. intros pre Hn.
  destruct pre as [|l ls].
  - simpl. rewrite convert_lines_nil. apply convert_lines_skip; assumption.
  - simpl app. destruct (is_blockquote_sql_line l) as [r|] eqn:Hl.
    + rewrite (convert_lines_run _ _ _ Hl).
      rewrite (convert_lines_run l ls _ Hl).
      change (l :: ls ++ x :: rest) with ((l :: ls) ++ x :: rest).
      rewrite emit_run_app_stop, bq_collect_app_stop by assumption.
      pose proof (bq_collect_length (l :: ls)) as Hlen.
      assert (Hpos : 0 < length (fst (collect (l :: ls)))).
      { simpl. rewrite Hl. destruct (collect ls); simpl; lia. }
      rewrite skipn_app.
      replace (length (fst (collect (l :: ls))) - length (l :: ls)) with 0 by lia.
      simpl skipn at 2.
      rewrite (IH (length (skipn (length (fst (collect (l :: ls)))) (l :: ls))));
        [| rewrite length_skipn; simpl in *; lia | reflexivity].
      rewrite app_assoc. reflexivity.
    + rewrite !convert_lines_skip by assumption.
      rewrite (IH (length ls)) by (simpl in Hn; lia || reflexivity).
      reflexivity.
Qed.

(** When the lines before end outside a run, the loop splits there. *)
Lemma convert_lines_app_last pre rest :
  (forall x, last pre = Some x -> is_blockquote_sql_line x = None) ->
  convert_lines (pre ++ rest) = convert_lines pre ++ convert_lines rest.
Proof.
  destruct pre as [|l0 pre0] using rev_ind; intros H.
  - simpl. rewrite convert_lines_nil. reflexivity.
  - clear IHpre0. assert (Hx : is_blockquote_sql_line l0 = None).
    { apply H. apply last_snoc. }
    rewrite <- app_assoc. simpl app.
    rewrite !convert_lines_app_stop by assumption.
    rewrite convert_lines_nil, <- app_assoc. reflexivity.
Qed.

(** The inner loop on a run that ends with the input or at a rejected
    line. *)
Lemma collect_run run inners post :
  Forall2 (fun l r => is_blockquote_sql_line l = Some r) run inners ->
  (forall x, head post = Some x -> is_blockquote_sql_line x = None) ->
  collect (run ++ post) = (inners, existsb nonblank inners).
Proof.
  intros Hrun Hpost. induction Hrun as [|l r run inners Hl _ IH]; simpl.
  - destruct post as [|x post]; simpl; [reflexivity|].
    rewrite (Hpost x eq_refl). reflexivity.
  - rewrite Hl, IH. reflexivity.
Qed.

Lemma convert_lines_one_run run inners post :
  run <> [] ->
  Forall2 (fun l r => is_blockquote_sql_line l = Some r) run inners ->
  (forall x, head post = Some x -> is_blockquote_sql_line x = None) ->
  convert_lines (run ++ post) =
  (if existsb nonblank inners
   then FENCE_OPEN :: pop_trailing_empty (pop_leading_empty inners)
          ++ [FENCE_CLOSE]
   else run) ++ convert_lines post.
Proof.
  intros Hne Hrun Hpost.
  pose proof (collect_run run inners post Hrun Hpost) as Hc.
  pose proof (Forall2_length _ _ _ Hrun) as Hlen.
  destruct run as [|l run']; [congruence|].
  inversion Hrun as [|? r ? inners' Hl Hrun' ]; subst.
  simpl app in *. rewrite (convert_lines_run _ _ _ Hl).
  unfold emit_run. rewrite Hc. simpl fst. rewrite <- Hlen.
  change (l :: run' ++ post) with ((l :: run') ++ post).
  rewrite skipn_app, skipn_all, Nat.sub_diag. simpl skipn.
  rewrite firstn_app, firstn_all, Nat.sub_diag. simpl firstn.
  rewrite app_nil_r. reflexivity.
Qed.

Lemma lstrip_split s :
  exists lead, s = lead ++ lstrip s /\ forallb is_space lead = true.
Proof.
  induction s as [|c s [lead [H1 H2]]]; simpl.
  - exists []. split; reflexivity.
  - destruct (is_space c) eqn:Hc.
    + exists (c :: lead). simpl. rewrite Hc, H2. split; [congruence|reflexivity].
    + exists []. split; reflexivity.
Qed.

Lemma until_lf_split r g t :
  until_lf r = (g, t) -> r = g ++ t /\ existsb (Ascii.eqb LF) g = false.
Proof.
  revert g t; induction r as [|c r IH]; simpl; intros g t.
  - intros [= <- <-]. split; reflexivity.
  - destruct (Ascii.eqb c LF) eqn:Hc.
    + intros [= <- <-]. split; reflexivity.
    + destruct (until_lf r) as [g' t']. intros [= <- <-].
      destruct (IH _ _ eq_refl) as [-> Hg]. cbn [existsb app].
      rewrite Ascii.eqb_sym, Hc, Hg. split; reflexivity.
Qed.

(** What the classifier returns for a quoted line with content: the line
    without its leading spaces, its marker and the spaces after the marker
    (and without the one line feed that may end it). *)
Lemma is_blockquote_sql_line_inner l r :
  is_blockquote_sql_line l = Some r -> r <> [] ->
  exists lead gap t,
    l = lead ++ ">"%char :: gap ++ r ++ t /\
    forallb is_space lead = true /\ forallb is_space gap = true /\
    at_dollar t = true /\ sql_like r = true.
Proof.
  unfold is_blockquote_sql_line. intros H Hr.
  destruct (lstrip_split l) as [lead [Hl Hlead]].
  destruct (lstrip l) as [|c after_marker]; [discriminate|].
  destruct (Ascii.eqb c ">") eqn:Hc; [|discriminate].
  apply Ascii.eqb_eq in Hc; subst c.
  destruct (lstrip_split after_marker) as [gap [Ha Hgap]].
  destruct (lstrip after_marker) as [|c2 r2] eqn:Hr2.
  - injection H as <-. congruence.
  - destruct (until_lf (c2 :: r2)) as [g t] eqn:Hu.
    destruct (at_dollar t) eqn:Ht; [|discriminate].
    destruct (sql_like g) eqn:Hs; [|discriminate].
    injection H as <-. apply until_lf_split in Hu as [Hu _].
    exists lead, gap, t. rewrite <- Hu, <- Ha.
    repeat split; assumption.
Qed.

Lemma pop_leading_empty_head inners :
  (forall x, head inners = Some x -> x <> []) ->
  pop_leading_empty inners = inners.
Proof.
  destruct inners as [|x inners]; simpl; [reflexivity|]. intros H.
  destruct x; [|reflexivity]. exfalso. apply (H [] eq_refl). reflexivity.
Qed.

Lemma pop_leading_empty_repeat a core :
  (forall x, head core = Some x -> x <> []) ->
  pop_leading_empty (repeat [] a ++ core) = core.
Proof.
  intros H. induction a as [|a IH]; simpl; [|exact IH].
  apply pop_leading_empty_head; assumption.
Qed.

Lemma pop_trailing_empty_last core :
  (forall x, last core = Some x -> x <> []) ->
  pop_trailing_empty core = core.
Proof.
  induction core as [|x core IH]; simpl; [reflexivity|]. intros H.
  destruct core as [|y core'].
  - simpl. destruct x; [|reflexivity]. exfalso. apply (H [] eq_refl). reflexivity.
  - rewrite IH by (intros z Hz; apply H; exact Hz). reflexivity.
Qed.

Lemma pop_trailing_empty_repeat core b :
  pop_trailing_empty (core ++ repeat [] b) = pop_trailing_empty core.
Proof.
  induction core as [|x core IH]; simpl.
  - induction b as [|b IHb]; simpl; [reflexivity|]. rewrite IHb. reflexivity.
  - rewrite IH. reflexivity.
Qed.

Lemma Forall2_classified_weaken (P : pystr -> Prop) run inners :
  Forall2 (fun l r => is_blockquote_sql_line l = Some r /\ P r) run inners ->
  Forall2 (fun l r => is_blockquote_sql_line l = Some r) run inners /\
  Forall P inners.
Proof.
  induction 1 as [|l r run inners [H1 H2] _ [IH1 IH2]]; split; constructor;
    assumption.
Qed.

Lemma existsb_nonblank_head inners :
  inners <> [] -> (forall x, head inners = Some x -> x <> []) ->
  existsb nonblank inners = true.
Proof.
  destruct inners as [|x inners]; [congruence|]. intros _ H. simpl.
  specialize (H x eq_refl). destruct x; [congruence|reflexivity].
Qed.

(** C2: a run of quoted lines that all carry SQL-looking content, bounded on
    either side by the end of the input or by a line that the classifier
    rejects, is replaced by exactly one fenced block: the sql opener, the
    contents in their order, the closer.  Each content is its line without
    the leading spaces, the quote marker and the spaces after the marker.
    The lines before and after the run are converted as they would be on
    their own: scanning resumes right after the run. *)
Theorem blockquote_run_fenced (pre run post inners : list pystr)
  (Hne : run <> [])
  (Hrun : Forall2 (fun l r => is_blockquote_sql_line l = Some r /\ r <> [])
            run inners)
  (Hpre : forall x, last pre = Some x -> is_blockquote_sql_line x = None)
  (Hpost : forall x, head post = Some x -> is_blockquote_sql_line x = None) :
  convert_lines (pre ++ run ++ post) =
    convert_lines pre ++ FENCE_OPEN :: inners ++ FENCE_CLOSE :: convert_lines post
  /\ Forall2 (fun l r => exists lead gap t,
                l = lead ++ ">"%char :: gap ++ r ++ t /\
                forallb is_space lead = true /\ forallb is_space gap = true /\
                at_dollar t = true) run inners.
Proof.
  split.
  - apply Forall2_classified_weaken in Hrun as [Hrun Hnb].
    rewrite convert_lines_app_last by assumption. f_equal.
    rewrite (convert_lines_one_run run inners post Hne Hrun Hpost).
    assert (Hin : inners <> []).
    { intros ->. apply Forall2_length in Hrun. destruct run; [congruence|discriminate]. }
    assert (Hhead : forall x, head inners = Some x -> x <> []).
    { intros x Hx. destruct inners as [|y ?]; [discriminate|].
      injection Hx as <-. inversion Hnb; assumption. }
    assert (Hlast : forall x, last inners = Some x -> x <> []).
    { intros x Hx. rewrite Forall_forall in Hnb. apply Hnb.
      apply last_Some_elem_of. exact Hx. }
    rewrite existsb_nonblank_head by assumption.
    rewrite pop_leading_empty_head, pop_trailing_empty_last by assumption.
    simpl. rewrite <- app_assoc. reflexivity.
  - clear Hne. induction Hrun as [|l r run inners [H1 H2] _ IH]; constructor.
    + destruct (is_blockquote_sql_line_inner l r H1 H2)
        as (lead & gap & t & Hl & Hlead & Hgap & Ht & _).
      exists lead, gap, t. repeat split; assumption.
    + assumption.
Qed.

Lemma blockquote_run_fenced_witness :
  convert_lines [str "> SELECT a"; str "> FROM b"; str "> WHERE c=1;"] =
    [str "```sql"; str "SELECT a"; str "FROM b"; str "WHERE c=1;"; str "```"]
  /\ convert_blockquote_sequences
       (str "> SELECT a" ++ LF :: str "> FROM b" ++ LF :: str "> WHERE c=1;") =
     str "```sql" ++ LF :: str "SELECT a" ++ LF :: str "FROM b" ++ LF ::
     str "WHERE c=1;" ++ LF :: str "```".
Proof.
  split; [|reflexivity].
  refine (proj1 (blockquote_run_fenced []
            [str "> SELECT a"; str "> FROM b"; str "> WHERE c=1;"] []
            [str "SELECT a"; str "FROM b"; str "WHERE c=1;"] _ _ _ _)).
  - discriminate.
  - repeat constructor; discriminate.
  - intros x [=].
  - intros x [=].
Defined.

(** C6: a run of quoted lines, bounded on either side by the end of the
    input or by a line that the classifier rejects, is copied unchanged when
    every line of it is a blank quoted line; and when its contents are some
    blank entries, then entries that start and end with a non-blank one,
    then blank entries again, it is replaced by one fenced block that holds
    the entries in between only. *)
Theorem blockquote_blank_run_kept (pre run post inners : list pystr)
  (Hne : run <> [])
  (Hrun : Forall2 (fun l r => is_blockquote_sql_line l = Some r) run inners)
  (Hpre : forall x, last pre = Some x -> is_blockquote_sql_line x = None)
  (Hpost : forall x, head post = Some x -> is_blockquote_sql_line x = None) :
  (Forall (fun r => r = []) inners ->
   convert_lines (pre ++ run ++ post) =
   convert_lines pre ++ run ++ convert_lines post) /\
  (forall (a b : nat) (core : list pystr),
     inners = repeat [] a ++ core ++ repeat [] b ->
     core <> [] ->
     (forall x, head core = Some x -> x <> []) ->
     (forall x, last core = Some x -> x <> []) ->
     convert_lines (pre ++ run ++ post) =
     convert_lines pre ++ FENCE_OPEN :: core ++ FENCE_CLOSE :: convert_lines post).
Proof.
  split.
  - intros Hblank. rewrite convert_lines_app_last by assumption. f_equal.
    rewrite (convert_lines_one_run run inners post Hne Hrun Hpost).
    assert (He : existsb nonblank inners = false).
    { clear -Hblank. induction Hblank as [|r inners -> _ IH]; simpl; assumption || reflexivity. }
    rewrite He. reflexivity.
  - intros a b core Hin Hcore Hhead Hlast.
    rewrite convert_lines_app_last by assumption. f_equal.
    rewrite (convert_lines_one_run run inners post Hne Hrun Hpost).
    assert (He : existsb nonblank inners = true).
    { rewrite Hin, !existsb_app. rewrite (existsb_nonblank_head core) by assumption.
      rewrite orb_true_r. reflexivity. }
    rewrite He, Hin.
    rewrite pop_leading_empty_repeat.
    + rewrite pop_trailing_empty_repeat, pop_trailing_empty_last by assumption.
      simpl. rewrite <- app_assoc. reflexivity.
    + intros x Hx. apply Hhead. destruct core; [congruence|exact Hx].
Qed.

Lemma blockquote_blank_run_kept_witness :
  convert_lines [str "text"; str ">"; str ">"; str "more"] =
    [str "text"; str ">"; str ">"; str "more"] /\
  convert_lines [str ">"; str "> a,"; str "> "; str "> b;"; str ">"; str ">"] =
    [str "```sql"; str "a,"; []; str "b;"; str "```"].
Proof.
  split.
  - refine (proj1 (blockquote_blank_run_kept [str "text"] [str ">"; str ">"]
              [str "more"] [[]; []] _ _ _ _) _).
    + discriminate.
    + repeat constructor.
    + intros x [= <-]. reflexivity.
    + intros x [= <-]. reflexivity.
    + repeat constructor.
  - refine (proj2 (blockquote_blank_run_kept []
              [str ">"; str "> a,"; str "> "; str "> b;"; str ">"; str ">"] []
              [[]; str "a,"; []; str "b;"; []; []] _ _ _ _)
              1 2 [str "a,"; []; str "b;"] _ _ _ _).
    + discriminate.
    + repeat constructor.
    + intros x [=].
    + intros x [=].
    + reflexivity.
    + discriminate.
    + intros x [= <-]. discriminate.
    + intros x [= <-]. discriminate.
Defined.

End BlockquoteRuns.

(** * Properties of the div-in-code remover *)

Section DivInCode.
Import FixDivs.
Local Arguments Ascii.eqb : simpl never.

Lemma remove_div_nil : remove_div_code_blocks [] = [].
Proof. apply remove_div_code_blocks_equation_1. Qed.

Lemma remove_div_match c t g rest :
  div_in_code_match (c :: t) = Some (g, rest) ->
  remove_div_code_blocks (c :: t) = g ++ remove_div_code_blocks rest.
Proof.
  intros H. simp remove_div_code_blocks.
  generalize (inspect (div_in_code_match (c :: t))).
  intros [[[g' rest']|] e]; simp remove_div_code_blocks; congruence.
Qed.

Lemma remove_div_no_match c t :
  div_in_code_match (c :: t) = None ->
  remove_div_code_blocks (c :: t) = c :: remove_div_code_blocks t.
Proof.
  intros H. simp remove_div_code_blocks.
  generalize (inspect (div_in_code_match (c :: t))).
  intros [[[g' rest']|] e]; simp remove_div_code_blocks; congruence.
Qed.

Lemma eq_ci_true a b : eq_ci a b = true <-> lower a = lower b.
Proof. unfold eq_ci. apply Ascii.eqb_eq. Qed.

(** A literal under [re.I] matches exactly its spellings in any case. *)
Lemma prefix_ci_spec p s r :
  prefix_ci p s = Some r <->
  exists m, s = m ++ r /\ map lower m = map lower p.
Proof.
  revert s; induction p as [|a p IH]; intros s; simpl.
  - split.
    + intros [= <-]. exists []. split; reflexivity.
    + intros [m [-> Hm]]. destruct m; [reflexivity|discriminate].
  - destruct s as [|b s].
    + split; [discriminate|]. intros [m [Hs Hm]].
      destruct m; [discriminate|]. discriminate.
    + destruct (eq_ci a b) eqn:E.
      * apply eq_ci_true in E. rewrite IH. split.
        -- intros [m [-> Hm]]. exists (b :: m). simpl.
           split; [reflexivity|congruence].
        -- intros [m [Hs Hm]]. destruct m as [|b' m]; [discriminate|].
           simpl in *. injection Hs as <- ->. injection Hm as _ Hm.
           exists m. split; [reflexivity|assumption].
      * split; [discriminate|]. intros [m [Hs Hm]].
        destruct m as [|b' m]; [discriminate|].
        simpl in *. injection Hs as <- ->. injection Hm as Hb _.
        assert (eq_ci a b = true) by (apply eq_ci_true; congruence).
        congruence.
Qed.

Lemma prefix_ci_spelling p o r :
  map lower o = map lower p -> prefix_ci p (o ++ r) = Some r.
Proof. intros H. apply prefix_ci_spec. exists o. split; [reflexivity|assumption]. Qed.

Lemma prefix_cs_here p r : prefix_cs p (p ++ r) = Some r.
Proof.
  induction p as [|a p IH]; simpl; [reflexivity|].
  rewrite Ascii.eqb_refl. exact IH.
Qed.

Lemma lstrip_spaces ws s :
  forallb is_space ws = true -> lstrip (ws ++ s) = lstrip s.
Proof.
  induction ws as [|c ws IH]; simpl; [reflexivity|]. intros H.
  apply andb_prop in H as [-> H]. apply IH; assumption.
Qed.

Lemma lstrip_id s :
  (forall c, head s = Some c -> is_space c = false) -> lstrip s = s.
Proof.
  destruct s as [|c s]; simpl; [reflexivity|]. intros H.
  rewrite (H c eq_refl). reflexivity.
Qed.


Lemma contains_ci_app p a s r :
  prefix_ci p s = Some r -> contains_ci p (a ++ s) = true.
Proof.
  intros H. induction a as [|c a IH]; simpl.
  - destruct s; simpl in *; rewrite H; reflexivity.
  - destruct (prefix_ci p (c :: a ++ s)); [reflexivity|exact IH].
Qed.






(** Case folding leaves the characters that are no letters alone. *)
Lemma lower_classes c :
  is_space (lower c) = is_space c /\
  Ascii.eqb ">" (lower c) = Ascii.eqb ">" c /\
  Ascii.eqb "`" (lower c) = Ascii.eqb "`" c.
Proof. destruct c as [[] [] [] [] [] [] [] []]; repeat split; reflexivity. Qed.


Lemma no_match_without_backtick c t :
  Ascii.eqb "`" c = false -> div_in_code_match (c :: t) = None.
Proof.
  intros H. unfold div_in_code_match.
  change FENCE_OPEN with ("`"%char :: str "``sql"). simpl prefix_ci.
  assert (E : eq_ci "`" c = false).
  { unfold eq_ci. destruct (lower_classes c) as (_ & _ & Hc).
    change (lower "`") with "`"%char. rewrite Hc. exact H. }
  rewrite E. reflexivity.
Qed.




Lemma until_gt_split s a r : until_gt s = Some (a, r) -> s = a ++ ">"%char :: r.
Proof.
  revert a r; induction s as [|c s IH]; simpl; intros a r; [discriminate|].
  destruct (Ascii.eqb c ">") eqn:Hc.
  - apply Ascii.eqb_eq in Hc. subst c. intros [= <- <-]. reflexivity.
  - destruct (until_gt s) as [[a' r']|]; [|discriminate].
    intros [= <- <-]. rewrite (IH _ _ eq_refl). reflexivity.
Qed.

Lemma prefix_ci_take p s r :
  prefix_ci p s = Some r -> s = firstn (length p) s ++ r.
Proof.
  intros H. apply prefix_ci_spec in H as [m [-> Hm]].
  apply (f_equal (@length ascii)) in Hm. rewrite !length_map in Hm.
  rewrite <- Hm, firstn_app, firstn_all, Nat.sub_diag, firstn_O, app_nil_r.
  reflexivity.
Qed.

Lemma closes_here_split s rest :
  closes_here s = Some rest ->
  exists w, s = firstn 6 s ++ w ++ rest /\ 3 <= length w.
Proof.
  unfold closes_here.
  destruct (prefix_ci (str "</div>") s) as [r|] eqn:Hp; [|discriminate].
  intros Hf. apply prefix_cs_app in Hf.
  destruct (lstrip_split r) as [ws [Hr _]].
  apply prefix_ci_take in Hp. simpl length in Hp.
  exists (ws ++ FENCE_CLOSE). split.
  - rewrite Hp at 1. rewrite Hr at 1. rewrite Hf, <- app_assoc. reflexivity.
  - rewrite length_app. simpl. lia.
Qed.

Lemma find_close_split s b rest :
  find_close s = Some (b, rest) ->
  exists w, s = b ++ w ++ rest /\ 3 <= length w.
Proof.
  revert b rest; induction s as [|c s IH]; intros b rest; [discriminate|].
  unfold find_close; fold find_close.
  destruct (closes_here (c :: s)) as [r1|] eqn:Hc.
  - intros [= <- <-]. apply closes_here_split; assumption.
  - destruct (find_close s) as [[b' r']|]; [|discriminate].
    intros [= <- <-]. destruct (IH _ _ eq_refl) as [w [Hs Hw]].
    exists w. split; [|assumption]. rewrite Hs at 1. reflexivity.
Qed.

(** A match covers, in this order: the opening fence and spaces, the group,
    spaces and the closing fence; the rest of the text follows. *)
Lemma div_in_code_match_split s g rest :
  div_in_code_match s = Some (g, rest) ->
  exists a w, s = a ++ g ++ w ++ rest /\ 6 <= length a /\ 3 <= length w.
Proof.
  unfold div_in_code_match.
  destruct (prefix_ci FENCE_OPEN s) as [s1|] eqn:H1; [|discriminate].
  destruct (prefix_ci (str "<div") (lstrip s1)) as [s3|] eqn:H3; [|discriminate].
  destruct (until_gt s3) as [[attrs s4]|] eqn:H4; [|discriminate].
  destruct (contains_ci _ attrs); [|discriminate].
  destruct (find_close s4) as [[body rest']|] eqn:H5; [|discriminate].
  intros [= <- <-].
  pose proof (prefix_ci_length _ _ _ H1) as L1. simpl length in L1.
  apply prefix_ci_take in H1, H3. simpl length in H1, H3.
  apply until_gt_split in H4. apply find_close_split in H5 as [w [H5 Hw]].
  destruct (lstrip_split s1) as [ws [Hs1 _]].
  exists (firstn 6 s ++ ws), w. split; [|split; [|assumption]].
  - rewrite H1 at 1. rewrite Hs1 at 1. rewrite H3 at 1.
    rewrite H4, H5. rewrite <- !app_assoc. reflexivity.
  - rewrite length_app, length_firstn. lia.
Qed.

(** ** A match in front of further text

    What a match attempt at the head of [b] becomes when the text [x]
    follows [b]: a match of [b] alone stays a match, and a match that leaves
    [x] whole is the match of [b] alone. *)
















Lemma app_suffix_split (u rest pre tail : pystr) :
  u ++ rest = pre ++ tail -> length tail <= length rest ->
  exists r, rest = r ++ tail /\ pre = u ++ r.
Proof.
  intros H Hl. apply app_eq_app in H as [l [[-> ->]|[-> ->]]].
  - rewrite length_app in Hl. destruct l as [|c l]; [|simpl in Hl; lia].
    exists []. rewrite !app_nil_r. split; reflexivity.
  - exists l. split; reflexivity.
Qed.


Lemma no_backtick_ends_before pre tail :
  existsb (Ascii.eqb "`") pre = false -> matches_end_before pre tail = true.
Proof.
  induction pre as [|c pre IH]; [reflexivity|]. intros H.
  cbn [existsb] in H. apply orb_false_elim in H as [Hc H].
  cbn [matches_end_before]. rewrite <- app_comm_cons.
  rewrite (no_match_without_backtick _ _ Hc). apply IH, H.
Qed.




End DivInCode.

(** * Lines and texts *)

Section Lines.
Local Arguments Ascii.eqb : simpl never.

Lemma LF_is_linebreak : is_linebreak LF = true.
Proof. reflexivity. Qed.

Lemma splitlines_cons_plain c s :
  is_linebreak c = false ->
  splitlines (c :: s) =
  match splitlines s with
  | [] => [[c]]
  | l :: ls => (c :: l) :: ls
  end.
Proof. intros H. simpl. rewrite H. reflexivity. Qed.

Lemma splitlines_lf s : splitlines (LF :: s) = [] :: splitlines s.
Proof. destruct s; reflexivity. Qed.

(** A line followed by a line feed is the first line of the text. *)
Lemma splitlines_line_lf l rest :
  nobreak l = true -> splitlines (l ++ LF :: rest) = l :: splitlines rest.
Proof.
  induction l as [|c l IH]; intros H.
  - apply splitlines_lf.
  - simpl in H. apply andb_prop in H as [Hc H]. apply negb_true_iff in Hc.
    rewrite <- app_comm_cons, splitlines_cons_plain by assumption.
    rewrite IH by assumption. reflexivity.
Qed.


Lemma splitlines_nobreak s : Forall (fun l => nobreak l = true) (splitlines s).
Proof.
  remember (length s) as n eqn:Hn. revert s Hn.
  induction n as [n IH] using lt_wf_ind. intros s Hn.
  destruct s as [|c s]; [constructor|].
  simpl. destruct (is_linebreak c) eqn:Hc.
  - destruct s as [|c2 s2]; [repeat constructor|].
    destruct (Ascii.eqb c CR && Ascii.eqb c2 LF); constructor;
      try reflexivity; eapply IH; try reflexivity; simpl in Hn; simpl; lia.
  - assert (Hs : Forall (fun l => nobreak l = true) (splitlines s)).
    { eapply IH; [|reflexivity]. simpl in Hn; lia. }
    destruct (splitlines s) as [|l ls].
    + repeat constructor. simpl. rewrite Hc. reflexivity.
    + inversion Hs; subst. constructor; [|assumption].
      simpl. rewrite Hc. assumption.
Qed.

Lemma splitlines_nonempty s : s <> [] -> splitlines s <> [].
Proof.
  destruct s as [|c s]; [congruence|]. intros _. simpl.
  destruct (is_linebreak c).
  - destruct s as [|c2 s2]; [discriminate|].
    destruct (Ascii.eqb c CR && Ascii.eqb c2 LF); discriminate.
  - destruct (splitlines s); discriminate.
Qed.

(** Lines joined and ended by a line feed split into the same lines. *)
Lemma splitlines_join_lf L :
  Forall (fun l => nobreak l = true) L -> L <> [] ->
  splitlines (join_lf L ++ [LF]) = L.
Proof.
  induction L as [|l L IH]; intros H Hne; [congruence|].
  inversion H as [|? ? Hl HL]; subst.
  destruct L as [|l2 L'].
  - simpl. rewrite splitlines_line_lf by assumption. reflexivity.
  - change (join_lf (l :: l2 :: L')) with (l ++ LF :: join_lf (l2 :: L')).
    rewrite <- app_assoc, <- app_comm_cons.
    rewrite splitlines_line_lf by assumption.
    rewrite IH by (assumption || discriminate). reflexivity.
Qed.


Lemma ends_with_lf_snoc s c : ends_with_lf (s ++ [c]) = Ascii.eqb c LF.
Proof.
  induction s as [|a s IH]; [reflexivity|].
  rewrite <- app_comm_cons. destruct s as [|b s']; [reflexivity|].
  exact IH.
Qed.

Lemma join_lf_snoc L l :
  L <> [] -> join_lf (L ++ [l]) = join_lf L ++ LF :: l.
Proof.
  induction L as [|a L IH]; intros Hne; [congruence|].
  destruct L as [|b L'].
  - reflexivity.
  - change (join_lf ((a :: b :: L') ++ [l]))
      with (a ++ LF :: join_lf ((b :: L') ++ [l])).
    rewrite IH by discriminate.
    change (join_lf (a :: b :: L')) with (a ++ LF :: join_lf (b :: L')).
    rewrite <- app_assoc. reflexivity.
Qed.

Lemma ends_with_lf_app s x :
  x <> [] -> ends_with_lf (s ++ x) = ends_with_lf x.
Proof.
  intros Hx. destruct x as [|c x'] using rev_ind; [congruence|].
  rewrite app_assoc, !ends_with_lf_snoc. reflexivity.
Qed.

Lemma ends_with_lf_nobreak x : nobreak x = true -> ends_with_lf x = false.
Proof.
  destruct x as [|c x' _] using rev_ind; [reflexivity|].
  unfold nobreak. rewrite forallb_app. simpl. intros H.
  apply andb_prop in H as [_ H]. rewrite andb_true_r in H.
  rewrite ends_with_lf_snoc. destruct (Ascii.eqb c LF) eqn:E; [|reflexivity].
  apply Ascii.eqb_eq in E. subst c. discriminate.
Qed.

(** A joined text ends with a line feed only when its last line is empty
    and is not the only one. *)
Lemma ends_with_lf_join L x :
  Forall (fun l => nobreak l = true) L -> last L = Some x -> x <> [] ->
  ends_with_lf (join_lf L) = false.
Proof.
  intros H Hlast Hx.
  destruct L as [|l0 L0 _] using rev_ind; [discriminate|].
  rewrite last_snoc in Hlast. injection Hlast as ->.
  apply Forall_app in H as [_ H]. inversion H; subst.
  destruct L0 as [|a L0'].
  - simpl. apply ends_with_lf_nobreak; assumption.
  - rewrite join_lf_snoc by discriminate.
    change (join_lf (a :: L0') ++ LF :: x) with (join_lf (a :: L0') ++ [LF] ++ x).
    rewrite app_assoc, ends_with_lf_app by assumption.
    apply ends_with_lf_nobreak; assumption.
Qed.

End Lines.

(** * Properties of the two file-level procedures *)

Section FilesChanged.
Local Arguments Ascii.eqb : simpl never.

Lemma string_app_length (a b : string) :
  String.length (a +:+ b) = String.length a + String.length b.
Proof. induction a as [|c a IH]; simpl; [reflexivity|]. rewrite IH. reflexivity. Qed.

(** The backup never shares its name with the file. *)
Lemma with_added_suffix_ne path ext :
  ext <> EmptyString -> with_added_suffix path ext <> path.
Proof.
  intros Hext Heq. apply (f_equal String.length) in Heq.
  unfold with_added_suffix in Heq. rewrite string_app_length in Heq.
  destruct ext; [congruence|]. simpl in Heq. lia.
Qed.

Lemma lstrip_In s c : In c (lstrip s) -> In c s.
Proof.
  induction s as [|a s IH]; simpl; [tauto|].
  destruct (is_space a); [right; apply IH; assumption|intros H; exact H].
Qed.

Lemma nobreak_incl l m :
  (forall c, In c m -> In c l) -> nobreak l = true -> nobreak m = true.
Proof.
  unfold nobreak. rewrite !forallb_forall. intros Hincl H c Hc.
  apply H, Hincl, Hc.
Qed.

(** The content of a bold line is made of characters of the line. *)
Lemma is_bold_sql_line_In l m c :
  NormalizeBold.is_bold_sql_line l = Some m -> In c m -> In c l.
Proof.
  unfold NormalizeBold.is_bold_sql_line.
  destruct (NormalizeBold.opening_bold l) as [rest|] eqn:Ho; [|discriminate].
  destruct (NormalizeBold.closing_bold rest) as [inner|] eqn:Hc; [|discriminate].
  intros H Hin.
  assert (inner = m) as ->.
  { destruct (_ || _); [discriminate|].
    destruct (NormalizeBold.looks_like_sql inner); congruence. }
  clear H.
  assert (Hrest : In c rest).
  { unfold NormalizeBold.closing_bold, NormalizeBold.rstrip in Hc.
    rewrite rev_involutive in Hc.
    destruct (lstrip (rev rest)) as [|a [|b inner_rev]] eqn:Hl; try discriminate.
    destruct (Ascii.eqb a "*" && Ascii.eqb b "*"); [|discriminate].
    destruct (existsb _ _); [discriminate|]. injection Hc as <-.
    apply in_rev. apply lstrip_In. rewrite Hl.
    right; right. apply in_rev. exact Hin. }
  unfold NormalizeBold.opening_bold in Ho. apply prefix_cs_app in Ho.
  assert (Hs : In c (lstrip l)).
  { destruct (lstrip l) as [|a after_marker] eqn:Hl.
    - rewrite Ho. apply in_or_app. right; exact Hrest.
    - destruct (Ascii.eqb a ">").
      + right. apply lstrip_In. rewrite Ho. apply in_or_app. right; exact Hrest.
      + rewrite Ho. apply in_or_app. right; exact Hrest. }
  apply lstrip_In; exact Hs.
Qed.

Lemma bold_collect_nobreak ls :
  Forall (fun l => nobreak l = true) ls ->
  Forall (fun l => nobreak l = true) (NormalizeBold.collect_bold_run ls).
Proof.
  induction 1 as [|l ls Hl _ IH]; simpl; [constructor|].
  destruct (NormalizeBold.is_bold_sql_line l) as [m|] eqn:Hm; constructor;
    [|assumption].
  apply (nobreak_incl l); [|assumption].
  intros c. apply is_bold_sql_line_In; assumption.
Qed.

Lemma scan_nobreak b L :
  Forall (fun l => nobreak l = true) L ->
  Forall (fun l => nobreak l = true) (fst (NormalizeBold.scan b L)).
Proof.
  funelim (NormalizeBold.scan b L); intros HL; simpl.
  - constructor.
  - inversion HL; subst. constructor; auto.
  - inversion HL; subst. constructor; auto.
  - inversion HL as [|? ? Hl Hls]; subst.
    constructor; [reflexivity|]. constructor.
    { apply (nobreak_incl line); [|assumption].
      intros c. apply is_bold_sql_line_In; assumption. }
    apply Forall_app. split; [apply bold_collect_nobreak; assumption|].
    constructor; [reflexivity|].
    match goal with IH : _ -> Forall _ _ |- _ => apply IH end.
    apply Forall_drop; assumption.
  - inversion HL; subst. constructor; auto.
Qed.

(** The loop never drops a line, and a conversion adds lines. *)
Lemma scan_length b L :
  length L <= length (fst (NormalizeBold.scan b L)) /\
  (snd (NormalizeBold.scan b L) = true ->
   length L < length (fst (NormalizeBold.scan b L))).
Proof.
  funelim (NormalizeBold.scan b L); simpl.
  - split; [lia|discriminate].
  - destruct H as [H1 H2]. split; [lia|]. intros Hc. specialize (H2 Hc). lia.
  - destruct H as [H1 H2]. split; [lia|]. intros Hc. specialize (H2 Hc). lia.
  - destruct H as [H1 _]. rewrite length_skipn in H1.
    rewrite length_app. simpl. pose proof (bold_collect_length ls).
    split; [lia|]. intros _. lia.
  - destruct H as [H1 H2]. split; [lia|]. intros Hc. specialize (H2 Hc). lia.
Qed.

Lemma scan_unchanged b L :
  snd (NormalizeBold.scan b L) = false -> fst (NormalizeBold.scan b L) = L.
Proof.
  funelim (NormalizeBold.scan b L); simpl; intros Hc;
    try discriminate; try reflexivity; f_equal; auto.
Qed.

Lemma scan_changed_iff b L :
  snd (NormalizeBold.scan b L) = true <-> fst (NormalizeBold.scan b L) <> L.
Proof.
  split.
  - intros Hc Heq. apply (proj2 (scan_length b L)) in Hc.
    rewrite Heq in Hc. lia.
  - intros Hne. destruct (snd (NormalizeBold.scan b L)) eqn:Hc; [reflexivity|].
    exfalso. apply Hne. apply scan_unchanged; assumption.
Qed.

(** What is written back is never the text that was read. *)
Lemma new_text_differs text :
  snd (NormalizeBold.scan false (splitlines text)) = true ->
  NormalizeBold.new_text (fst (NormalizeBold.scan false (splitlines text)))
  <> text.
Proof.
  intros Hc Heq.
  pose proof (scan_nobreak false (splitlines text) (splitlines_nobreak text)) as Hnb.
  pose proof (proj2 (scan_length false (splitlines text)) Hc) as Hlen.
  set (out := fst (NormalizeBold.scan false (splitlines text))) in *.
  assert (Hne : out <> []) by (intros E; rewrite E in Hlen; simpl in Hlen; lia).
  apply (f_equal splitlines) in Heq. unfold NormalizeBold.new_text in Heq.
  rewrite splitlines_join_lf in Heq by assumption.
  rewrite <- Heq in Hlen. lia.
Qed.

(** C8: each script writes a backup exactly when its transform changes the
    text that it read: for the fix script when the text after both steps
    differs from the text read, for the bold script when the line sequence
    after the scan differs from the line sequence read (its changed flag),
    which is also when the text of the file after the run differs from the
    text read.  When
    a backup is written, the backup holding the text read is written first
    and the file is overwritten with the new text second; both writes are
    the only ones.  Otherwise nothing is written and the files are as they
    were. *)
Theorem backup_written_iff_changed
  (path : string) (σ : filesystem) (orig : pystr)
  (Hread : read_text path σ = Some orig) :
  (let new := FixDivs.fix_text orig in
   let bak := with_added_suffix path ".fixbak" in
   exists changed σ',
     FixDivs.normalize_file path σ = Some (changed, σ') /\
     (changed = true <-> new <> orig) /\
     (changed = true ->
      writes σ' = writes σ ++ [(bak, orig); (path, new)] /\
      files σ' !! bak = Some orig /\ files σ' !! path = Some new) /\
     (changed = false -> σ' = σ))
  /\
  (let lines := splitlines orig in
   let out_lines := fst (NormalizeBold.scan false lines) in
   let new := NormalizeBold.new_text out_lines in
   let bak := with_added_suffix path ".bak" in
   exists changed σ',
     NormalizeBold.normalize_file path σ = Some (changed, σ') /\
     (changed = true <-> out_lines <> lines) /\
     (changed = true <-> NormalizeBold.normalized_text orig <> orig) /\
     (changed = true ->
      new <> orig /\
      writes σ' = writes σ ++ [(bak, orig); (path, new)] /\
      files σ' !! bak = Some orig /\ files σ' !! path = Some new) /\
     (changed = false -> σ' = σ)).
Proof.
  split.
  - intros new bak. unfold FixDivs.normalize_file. rewrite Hread.
    fold (FixDivs.fix_text orig). fold new.
    destruct (bool_decide (new = orig)) eqn:Hd; simpl.
    + apply bool_decide_eq_true in Hd.
      exists false, σ. repeat split; try discriminate; congruence.
    + apply bool_decide_eq_false in Hd.
      exists true, (write_text path new (write_text bak orig σ)).
      repeat split; try discriminate; try (intros; assumption).
      * simpl. rewrite <- app_assoc. reflexivity.
      * simpl. rewrite lookup_insert_ne, lookup_insert_eq; [reflexivity|].
        intros E. symmetry in E. revert E.
        apply with_added_suffix_ne. discriminate.
      * simpl. apply lookup_insert_eq.
  - intros lines out_lines new bak. unfold NormalizeBold.normalize_file.
    rewrite Hread. fold lines.
    pose proof (scan_changed_iff false lines) as Hiff.
    pose proof (new_text_differs orig) as Hdiff.
    assert (Hnt : NormalizeBold.normalized_text orig =
                  if snd (NormalizeBold.scan false lines) then new else orig).
    { unfold NormalizeBold.normalized_text, new, out_lines. fold lines.
      destruct (NormalizeBold.scan false lines); reflexivity. }
    fold lines in Hdiff. fold out_lines in Hdiff, Hiff. fold new in Hdiff.
    rewrite Hnt. clear Hnt.
    destruct (NormalizeBold.scan false lines) as [out ch] eqn:Hs.
    simpl in *. subst out_lines. destruct ch.
    + exists true, (write_text path new (write_text bak orig σ)).
      repeat split; try discriminate; try tauto.
      * simpl. rewrite <- app_assoc. reflexivity.
      * simpl. rewrite lookup_insert_ne, lookup_insert_eq; [reflexivity|].
        intros E. symmetry in E. revert E.
        apply with_added_suffix_ne. discriminate.
      * simpl. apply lookup_insert_eq.
    + exists false, σ. repeat split; try discriminate; try tauto.
Qed.

Lemma backup_written_iff_changed_witness :
  read_text "lesson.md" lesson_files = Some lesson_text /\
  (exists σ',
     FixDivs.normalize_file "lesson.md" lesson_files = Some (true, σ') /\
     writes σ' =
       [("lesson.md.fixbak"%string, lesson_text);
        ("lesson.md"%string,
         str "```sql" ++ LF :: str "SELECT 1" ++ LF :: str "```" ++ LF ::
         str "**SELECT 2;**" ++ [LF])]) /\
  (exists σ',
     NormalizeBold.normalize_file "lesson.md" lesson_files = Some (true, σ') /\
     writes σ' =
       [("lesson.md.bak"%string, lesson_text);
        ("lesson.md"%string,
         str "> SELECT 1" ++ LF :: str "```sql" ++ LF :: str "SELECT 2;" ++
         LF :: str "```" ++ [LF])]).
Proof.
  assert (Hread : read_text "lesson.md" lesson_files = Some lesson_text)
    by reflexivity.
  split; [exact Hread|].
  destruct (backup_written_iff_changed "lesson.md" lesson_files lesson_text Hread)
    as [(c1 & σ1 & Hn1 & Hiff1 & Hw1 & _)
        (c2 & σ2 & Hn2 & Hiff2 & _ & Hw2 & _)].
  split.
  - assert (c1 = true) as -> by (apply Hiff1; discriminate).
    exists σ1. split; [exact Hn1|]. exact (proj1 (Hw1 eq_refl)).
  - assert (c2 = true) as -> by (apply Hiff2; discriminate).
    exists σ2. split; [exact Hn2|]. exact (proj1 (proj2 (Hw2 eq_refl))).
Defined.

(** C9: the change detection of the fix script reacts to line separators.
    The text made of two plain lines separated by a carriage return and a
    line feed holds no line that the classifier accepts and no div in a sql
    fence, yet [convert_blockquote_sequences] returns another text for it,
    the two lines joined by a bare line feed.  A file never delivers that
    pair ([read_text] turns it into a line feed, and such a file is left
    alone), but it delivers a form feed, which is a line boundary as well:
    for a file that holds two plain lines separated by a form feed,
    [normalize_file] writes the backup and rewrites the file although no
    line was converted. *)
Theorem fix_rewrites_on_line_separator :
  let crlf_text := str "first" ++ CR :: LF :: str "second" in
  let ff_text := str "first" ++ FF :: str "second" in
  let joined := str "first" ++ LF :: str "second" in
  let σ := FS {[ "lesson.md"%string := ff_text ]} [] in
  (Forall (fun l => FixDivs.is_blockquote_sql_line l = None)
     (splitlines crlf_text) /\
   FixDivs.contains_div_in_code crlf_text = false /\
   FixDivs.remove_div_code_blocks crlf_text = crlf_text /\
   FixDivs.convert_lines (splitlines crlf_text) = splitlines crlf_text /\
   FixDivs.convert_blockquote_sequences crlf_text = joined /\
   FixDivs.convert_blockquote_sequences crlf_text <> crlf_text) /\
  (Forall (fun l => FixDivs.is_blockquote_sql_line l = None)
     (splitlines ff_text) /\
   FixDivs.contains_div_in_code ff_text = false /\
   FixDivs.convert_lines (splitlines ff_text) = splitlines ff_text /\
   exists σ',
     FixDivs.normalize_file "lesson.md" σ = Some (true, σ') /\
     writes σ' = [("lesson.md.fixbak"%string, ff_text);
                  ("lesson.md"%string, joined)]) /\
  FixDivs.normalize_file "lesson.md"
    (FS {[ "lesson.md"%string := crlf_text ]} []) =
  Some (false, FS {[ "lesson.md"%string := crlf_text ]} []).
Proof.
  cbv zeta. split; [|split].
  - repeat split; try reflexivity; try discriminate.
    repeat constructor.
  - repeat split; try reflexivity.
    + repeat constructor.
    + eexists. split; reflexivity.
  - reflexivity.
Qed.

End FilesChanged.

(** * The quote marker in the blockquote classifier *)

Section QuoteMarker.
Import FixDivs.

(** C7, as the code behaves: a line whose first character after the leading
    spaces is not the quote marker is rejected by the classifier, whatever
    its content; the SQL-looking line [SELECT a FROM b] is rejected, while
    the same content behind a marker is accepted. *)
Theorem blockquote_marker_required (s : pystr)
  (Hmarker : head (lstrip s) <> Some ">"%char) :
  is_blockquote_sql_line s = None.
Proof.
  unfold is_blockquote_sql_line.
  destruct (lstrip s) as [|c after_marker]; [reflexivity|].
  destruct (Ascii.eqb c ">") eqn:Hc; [|reflexivity].
  apply Ascii.eqb_eq in Hc. subst c. exfalso. apply Hmarker. reflexivity.
Qed.

Lemma blockquote_marker_required_witness :
  sql_like (str "SELECT a FROM b") = true /\
  is_blockquote_sql_line (str "SELECT a FROM b") = None /\
  is_blockquote_sql_line (str "> SELECT a FROM b") = Some (str "SELECT a FROM b").
Proof.
  split; [reflexivity|]. split; [|reflexivity].
  apply (blockquote_marker_required (str "SELECT a FROM b")). discriminate.
Defined.

End QuoteMarker.

(** * Running a script on its own output *)

Section SecondRun.
Import FixDivs.
Local Arguments Ascii.eqb : simpl never.

Lemma collect_spec lines :
  Forall2 (fun l r => is_blockquote_sql_line l = Some r)
    (firstn (length (fst (collect lines))) lines) (fst (collect lines)) /\
  snd (collect lines) = existsb nonblank (fst (collect lines)).
Proof.
  induction lines as [|l ls [IH1 IH2]]; simpl.
  - split; [constructor|reflexivity].
  - destruct (is_blockquote_sql_line l) as [r|] eqn:Hl; simpl.
    + destruct (collect ls) as [sql saw]; simpl in *.
      split; [constructor; assumption|]. rewrite IH2. reflexivity.
    + split; [constructor|reflexivity].
Qed.

Lemma pop_leading_empty_Forall (P : pystr -> Prop) l :
  Forall P l -> Forall P (pop_leading_empty l).
Proof.
  induction 1 as [|x l Hx Hl IH]; simpl; [constructor|].
  destruct x; [assumption|constructor; assumption].
Qed.

Lemma pop_trailing_empty_Forall (P : pystr -> Prop) l :
  Forall P l -> Forall P (pop_trailing_empty l).
Proof.
  induction 1 as [|x l Hx Hl IH]; simpl; [constructor|].
  destruct (pop_trailing_empty l) as [|y kept].
  - destruct (is_empty x); repeat constructor; assumption.
  - constructor; assumption.
Qed.

Lemma existsb_nonblank_false sql :
  existsb nonblank sql = false -> Forall (fun r => r = []) sql.
Proof.
  induction sql as [|r sql IH]; simpl; [constructor|]. intros H.
  apply orb_false_elim in H as [Hr H]. constructor; [|apply IH; assumption].
  destruct r; [reflexivity|discriminate].
Qed.





(** Quiet lines are copied. *)
Lemma convert_lines_stable L : Forall quiet L -> convert_lines L = L.
Proof.
  remember (length L) as n eqn:Hn. revert L Hn.
  induction n as [n IH] using lt_wf_ind. intros L Hn HL.
  destruct L as [|l ls].
  - apply convert_lines_nil.
  - destruct (is_blockquote_sql_line l) as [r|] eqn:Hl.
    + rewrite (convert_lines_run _ _ _ Hl).
      rewrite (IH (length (skipn (length (fst (collect (l :: ls)))) (l :: ls))));
        [| rewrite length_skipn, (collect_first _ _ _ Hl); subst n; simpl; lia
         | reflexivity | apply Forall_drop; assumption].
      unfold emit_run.
      destruct (collect_spec (l :: ls)) as [Hspec Hsaw].
      destruct (collect (l :: ls)) as [sql saw]; simpl fst in *; simpl snd in *.
      assert (Hblank : existsb nonblank sql = false).
      { assert (Hpre : Forall quiet (firstn (length sql) (l :: ls)))
          by (apply Forall_take; assumption).
        clear -Hspec Hpre.
        induction Hspec as [|l' r' ls' sql' Hl' _ IH']; [reflexivity|].
        inversion Hpre as [|? ? Hq Hqs]; subst. simpl.
        rewrite IH' by assumption.
        destruct Hq as [Hq|Hq]; rewrite Hq in Hl'; [discriminate|].
        injection Hl' as <-. reflexivity. }
      rewrite Hsaw, Hblank. apply firstn_skipn.
    + rewrite (convert_lines_skip _ _ Hl). inversion HL; subst.
      f_equal. eapply IH; [|reflexivity|assumption]. simpl. lia.
Qed.

Lemma is_blockquote_sql_line_nobreak l r :
  is_blockquote_sql_line l = Some r -> nobreak l = true -> nobreak r = true.
Proof.
  intros H Hl. destruct r as [|c r']; [reflexivity|].
  destruct (is_blockquote_sql_line_inner l _ H)
    as (lead & gap & t & -> & _); [discriminate|].
  revert Hl. apply nobreak_incl. intros a Ha.
  apply in_or_app. right. right.
  apply in_or_app. right. apply in_or_app. left. exact Ha.
Qed.

Lemma emit_run_nobreak lines :
  Forall (fun l => nobreak l = true) lines ->
  Forall (fun l => nobreak l = true) (emit_run lines).
Proof.
  intros H. unfold emit_run.
  destruct (collect_spec lines) as [Hspec _].
  destruct (collect lines) as [sql saw]; simpl in *.
  assert (Hpre : Forall (fun l => nobreak l = true) (firstn (length sql) lines))
    by (apply Forall_take; assumption).
  destruct saw; [|assumption].
  constructor; [reflexivity|].
  apply Forall_app. split; [|repeat constructor].
  apply pop_trailing_empty_Forall, pop_leading_empty_Forall.
  clear -Hspec Hpre.
  induction Hspec as [|l r ls sql Hl _ IH]; [constructor|].
  inversion Hpre; subst. constructor; [|apply IH; assumption].
  eapply is_blockquote_sql_line_nobreak; eassumption.
Qed.

Lemma convert_lines_nobreak L :
  Forall (fun l => nobreak l = true) L ->
  Forall (fun l => nobreak l = true) (convert_lines L).
Proof.
  remember (length L) as n eqn:Hn. revert L Hn.
  induction n as [n IH] using lt_wf_ind. intros L Hn HL.
  destruct L as [|l ls].
  - rewrite convert_lines_nil. constructor.
  - destruct (is_blockquote_sql_line l) as [r|] eqn:Hl.
    + rewrite (convert_lines_run _ _ _ Hl). apply Forall_app. split.
      * apply emit_run_nobreak; assumption.
      * eapply IH; [|reflexivity|apply Forall_drop; assumption].
        rewrite length_skipn. rewrite (collect_first _ _ _ Hl).
        subst n. simpl. lia.
    + rewrite (convert_lines_skip _ _ Hl). inversion HL; subst.
      constructor; [assumption|].
      eapply IH; [|reflexivity|assumption]. simpl. lia.
Qed.

Lemma convert_lines_nonempty L : L <> [] -> convert_lines L <> [].
Proof.
  destruct L as [|l ls]; [congruence|]. intros _.
  destruct (is_blockquote_sql_line l) as [r|] eqn:Hl.
  - rewrite (convert_lines_run _ _ _ Hl). unfold emit_run.
    pose proof (collect_first l ls r Hl) as Hlen.
    destruct (collect (l :: ls)) as [sql saw]; simpl fst in *.
    destruct saw; [discriminate|].
    rewrite Hlen. discriminate.
  - rewrite (convert_lines_skip _ _ Hl). discriminate.
Qed.

Lemma remove_div_id t :
  contains_div_in_code t = false -> remove_div_code_blocks t = t.
Proof.
  induction t as [|c t IH]; intros H; [apply remove_div_nil|].
  unfold contains_div_in_code in H; fold contains_div_in_code in H.
  destruct (div_in_code_match (c :: t)) eqn:Hm; [discriminate|].
  rewrite (remove_div_no_match _ _ Hm), IH by assumption. reflexivity.
Qed.








(** Text without a carriage return is read back as it was written. *)
Lemma universal_newlines_id s :
  forallb (fun c => negb (Ascii.eqb c CR)) s = true -> universal_newlines s = s.
Proof.
  induction s as [|c s IH]; simpl; [reflexivity|]. intros H.
  apply andb_prop in H as [Hc H]. apply negb_true_iff in Hc.
  rewrite Hc, IH by assumption. reflexivity.
Qed.

Lemma nobreak_no_cr l :
  nobreak l = true -> forallb (fun c => negb (Ascii.eqb c CR)) l = true.
Proof.
  unfold nobreak. rewrite !forallb_forall. intros H c Hc.
  specialize (H c Hc). destruct (Ascii.eqb c CR) eqn:E; [|reflexivity].
  apply Ascii.eqb_eq in E. subst c. discriminate.
Qed.

Lemma join_lf_no_cr L :
  Forall (fun l => nobreak l = true) L ->
  forallb (fun c => negb (Ascii.eqb c CR)) (join_lf L) = true.
Proof.
  induction 1 as [|l L Hl HL IH]; [reflexivity|].
  destruct L as [|l2 L'].
  - simpl. apply nobreak_no_cr; assumption.
  - change (join_lf (l :: l2 :: L')) with (l ++ LF :: join_lf (l2 :: L')).
    rewrite forallb_app, (nobreak_no_cr l Hl).
    change (forallb (fun c => negb (Ascii.eqb c CR)) (LF :: join_lf (l2 :: L')))
      with (negb (Ascii.eqb LF CR) &&
            forallb (fun c => negb (Ascii.eqb c CR)) (join_lf (l2 :: L'))).
    rewrite IH. reflexivity.
Qed.

Lemma read_after_write path t σ :
  forallb (fun c => negb (Ascii.eqb c CR)) t = true ->
  read_text path (write_text path t σ) = Some t.
Proof.
  intros H. unfold read_text, write_text. simpl.
  rewrite lookup_insert_eq. simpl. rewrite universal_newlines_id by assumption.
  reflexivity.
Qed.

Lemma fix_text_no_cr t :
  forallb (fun c => negb (Ascii.eqb c CR)) (fix_text t) = true.
Proof.
  unfold fix_text, convert_blockquote_sequences.
  rewrite forallb_app, join_lf_no_cr
    by (apply convert_lines_nobreak, splitlines_nobreak).
  destruct (ends_with_lf _); reflexivity.
Qed.






End SecondRun.

(** * The two line classifiers, read as patterns *)

Section Classifiers.
Local Arguments Ascii.eqb : simpl never.

Lemma lstrip_head s c rest : lstrip s = c :: rest -> is_space c = false.
Proof.
  induction s as [|a s IH]; simpl; [discriminate|].
  destruct (is_space a) eqn:Ha; [exact IH|]. intros [= <- <-]. exact Ha.
Qed.

Lemma lstrip_all_spaces s : forallb is_space s = true -> lstrip s = [].
Proof.
  intros H. rewrite <- (app_nil_r s). rewrite lstrip_spaces by assumption.
  reflexivity.
Qed.

Lemma lstrip_nil_spaces s : lstrip s = [] -> forallb is_space s = true.
Proof.
  induction s as [|a s IH]; simpl; [reflexivity|].
  destruct (is_space a); [exact IH|discriminate].
Qed.

Lemma space_is_not_marker c : is_space c = true -> Ascii.eqb c ">" = false.
Proof.
  intros H. destruct (Ascii.eqb c ">") eqn:E; [|reflexivity].
  apply Ascii.eqb_eq in E. subst c. discriminate.
Qed.

Lemma until_lf_app r t :
  existsb (Ascii.eqb LF) r = false -> FixDivs.at_dollar t = true ->
  FixDivs.until_lf (r ++ t) = (r, t).
Proof.
  intros Hr Ht. induction r as [|c r IH].
  - destruct t as [|a [|b t']]; simpl in *; try discriminate; [reflexivity|].
    rewrite Ht. reflexivity.
  - cbn [existsb] in Hr. apply orb_false_elim in Hr as [Hc Hr].
    rewrite <- app_comm_cons. cbn [FixDivs.until_lf].
    rewrite Ascii.eqb_sym, Hc, IH by assumption. reflexivity.
Qed.

(** X1: the quoted-line classifier returns the empty content exactly for
    the lines made of spaces, the quote marker and spaces; and it returns a
    content that is not empty exactly when the line is: spaces, the marker,
    spaces, the content, and at most one final line feed, where the content
    starts with a character that is no space, holds no line feed and passes
    the SQL heuristic. *)
Theorem blockquote_classifier_shape (s : pystr) :
  (FixDivs.is_blockquote_sql_line s = Some [] <->
   exists lead gap,
     s = lead ++ ">"%char :: gap /\
     forallb is_space lead = true /\ forallb is_space gap = true) /\
  (forall r, r <> [] ->
     (FixDivs.is_blockquote_sql_line s = Some r <->
      exists lead gap t,
        s = lead ++ ">"%char :: gap ++ r ++ t /\
        forallb is_space lead = true /\ forallb is_space gap = true /\
        FixDivs.at_dollar t = true /\
        (forall c, head r = Some c -> is_space c = false) /\
        existsb (Ascii.eqb LF) r = false /\
        FixDivs.sql_like r = true)).
Proof.
  split; [|intros r Hr]; split.
  - (* blank content: the shape of the line *)
    unfold FixDivs.is_blockquote_sql_line. intros H.
    destruct (lstrip_split s) as [lead [Hs Hlead]].
    destruct (lstrip s) as [|c after_marker]; [discriminate|].
    destruct (Ascii.eqb c ">") eqn:Hc; [|discriminate].
    apply Ascii.eqb_eq in Hc. subst c.
    destruct (lstrip after_marker) as [|c2 r2] eqn:Hr2.
    + exists lead, after_marker. repeat split; try assumption.
      apply lstrip_nil_spaces; assumption.
    + exfalso. apply lstrip_head in Hr2 as Hc2.
      cbn [FixDivs.until_lf] in H.
      destruct (Ascii.eqb c2 LF) eqn:E.
      { apply Ascii.eqb_eq in E. subst c2. discriminate. }
      destruct (FixDivs.until_lf r2) as [g t].
      destruct (FixDivs.at_dollar t); [|discriminate].
      destruct (FixDivs.sql_like (c2 :: g)); discriminate.
  - intros (lead & gap & -> & Hlead & Hgap).
    unfold FixDivs.is_blockquote_sql_line.
    rewrite lstrip_spaces by assumption. cbn [lstrip].
    change (is_space ">") with false. cbv iota.
    rewrite Ascii.eqb_refl, lstrip_all_spaces by assumption. reflexivity.
  - (* content: the shape of the line *)
    unfold FixDivs.is_blockquote_sql_line. intros H.
    destruct (lstrip_split s) as [lead [Hs Hlead]].
    destruct (lstrip s) as [|c after_marker]; [discriminate|].
    destruct (Ascii.eqb c ">") eqn:Hc; [|discriminate].
    apply Ascii.eqb_eq in Hc. subst c.
    destruct (lstrip_split after_marker) as [gap [Ha Hgap]].
    destruct (lstrip after_marker) as [|c2 r2] eqn:Hr2.
    + injection H as <-. congruence.
    + apply lstrip_head in Hr2 as Hc2.
      destruct (FixDivs.until_lf (c2 :: r2)) as [g t] eqn:Hu.
      destruct (FixDivs.at_dollar t) eqn:Ht; [|discriminate].
      destruct (FixDivs.sql_like g) eqn:Hsql; [|discriminate].
      injection H as <-. pose proof Hu as Hu'.
      apply until_lf_split in Hu as [Hu Hlf].
      exists lead, gap, t. rewrite <- Hu, <- Ha.
      repeat split; try assumption.
      intros c Hhead. destruct g as [|c3 g']; [discriminate|].
      injection Hhead as <-. injection Hu as <- _. exact Hc2.
  - intros (lead & gap & t & -> & Hlead & Hgap & Ht & Hhead & Hlf & Hsql).
    unfold FixDivs.is_blockquote_sql_line.
    rewrite lstrip_spaces by assumption. cbn [lstrip].
    change (is_space ">") with false. cbv iota.
    rewrite Ascii.eqb_refl, lstrip_spaces by assumption.
    destruct r as [|c r']; [congruence|].
    rewrite lstrip_id by (intros c' [= <-]; apply Hhead; reflexivity).
    rewrite <- app_comm_cons.
    change (c :: r' ++ t) with ((c :: r') ++ t).
    rewrite until_lf_app, Ht, Hsql by assumption. reflexivity.
Qed.

Lemma blockquote_classifier_shape_witness :
  FixDivs.is_blockquote_sql_line (str "  >   WHERE c=1; " ++ [LF]) =
  Some (str "WHERE c=1; ").
Proof.
  apply (proj2 (blockquote_classifier_shape _) (str "WHERE c=1; ")).
  - discriminate.
  - exists (str "  "), (str "   "), [LF].
    repeat split; try reflexivity. intros c [= <-]. reflexivity.
Defined.

Lemma forallb_rev_spaces ws :
  forallb is_space ws = true -> forallb is_space (rev ws) = true.
Proof.
  rewrite !forallb_forall. intros H c Hc. apply H. apply in_rev. exact Hc.
Qed.

Lemma opening_bold_shape line rest :
  NormalizeBold.opening_bold line = Some rest <->
  exists lead quote,
    line = lead ++ quote ++ str "**" ++ rest /\
    forallb is_space lead = true /\
    (quote = [] \/
     exists gap, quote = ">"%char :: gap /\ forallb is_space gap = true).
Proof.
  unfold NormalizeBold.opening_bold. split.
  - intros H. destruct (lstrip_split line) as [lead [Hl Hlead]].
    destruct (lstrip line) as [|c after_marker] eqn:Hs; [discriminate|].
    destruct (Ascii.eqb c ">") eqn:Hc.
    + apply Ascii.eqb_eq in Hc. subst c.
      destruct (lstrip_split after_marker) as [gap [Ha Hgap]].
      apply prefix_cs_app in H. exists lead, (">"%char :: gap).
      split; [|split; [assumption|right; exists gap; split; [reflexivity|assumption]]].
      rewrite Hl, Ha, H. reflexivity.
    + apply prefix_cs_app in H. exists lead, [].
      split; [|split; [assumption|left; reflexivity]].
      rewrite Hl, H. reflexivity.
  - intros (lead & quote & -> & Hlead & Hquote).
    rewrite lstrip_spaces by assumption.
    destruct Hquote as [->|(gap & -> & Hgap)].
    + rewrite app_nil_l. reflexivity.
    + rewrite <- app_comm_cons. cbn [lstrip].
      change (is_space ">") with false. cbv iota.
      rewrite Ascii.eqb_refl, lstrip_spaces by assumption. reflexivity.
Qed.

Lemma closing_bold_shape rest m :
  NormalizeBold.closing_bold rest = Some m <->
  exists trail,
    rest = m ++ str "**" ++ trail /\ forallb is_space trail = true /\
    existsb (Ascii.eqb LF) m = false.
Proof.
  unfold NormalizeBold.closing_bold, NormalizeBold.rstrip.
  rewrite rev_involutive. split.
  - intros H. destruct (lstrip_split (rev rest)) as [ws [Hr Hws]].
    destruct (lstrip (rev rest)) as [|a [|b inner_rev]]; try discriminate.
    destruct (Ascii.eqb a "*") eqn:Ha; [|discriminate].
    destruct (Ascii.eqb b "*") eqn:Hb; [|discriminate].
    apply Ascii.eqb_eq in Ha, Hb. subst a b. cbn [andb] in H.
    destruct (existsb (Ascii.eqb LF) (rev inner_rev)) eqn:Hlf; [discriminate|].
    injection H as <-. exists (rev ws).
    split; [|split; [apply forallb_rev_spaces; assumption|assumption]].
    apply (f_equal (@rev ascii)) in Hr. rewrite rev_involutive in Hr.
    rewrite Hr, rev_app_distr. cbn [rev]. rewrite <- !app_assoc. reflexivity.
  - intros (trail & -> & Htrail & Hlf).
    rewrite !rev_app_distr, <- app_assoc.
    rewrite lstrip_spaces by (apply forallb_rev_spaces; assumption).
    change (rev (str "**")) with (str "**").
    change (str "**" ++ rev m) with ("*"%char :: "*"%char :: rev m).
    cbn [lstrip]. change (is_space "*") with false. cbv iota.
    rewrite !Ascii.eqb_refl. cbn [andb]. rewrite rev_involutive, Hlf.
    reflexivity.
Qed.

(** X2: the bold classifier returns a content exactly when the line is:
    spaces, an optional quote marker with spaces, two asterisks, the
    content, two asterisks, spaces, where the content holds no line feed and
    no div tag and passes the SQL heuristic; the content is returned as it
    stands in the line. *)
Theorem bold_classifier_shape (line m : pystr) :
  NormalizeBold.is_bold_sql_line line = Some m <->
  exists lead quote trail,
    line = lead ++ quote ++ str "**" ++ m ++ str "**" ++ trail /\
    forallb is_space lead = true /\
    (quote = [] \/
     exists gap, quote = ">"%char :: gap /\ forallb is_space gap = true) /\
    forallb is_space trail = true /\
    existsb (Ascii.eqb LF) m = false /\
    contains_ci (str "<div") m || contains_ci (str "</div>") m = false /\
    NormalizeBold.looks_like_sql m = true.
Proof.
  unfold NormalizeBold.is_bold_sql_line. split.
  - intros H.
    destruct (NormalizeBold.opening_bold line) as [rest|] eqn:Ho; [|discriminate].
    destruct (NormalizeBold.closing_bold rest) as [inner|] eqn:Hc; [|discriminate].
    destruct (contains_ci (str "<div") inner || contains_ci (str "</div>") inner)
      eqn:Hdiv; [discriminate|].
    destruct (NormalizeBold.looks_like_sql inner) eqn:Hsql; [|discriminate].
    injection H as <-.
    apply opening_bold_shape in Ho as (lead & quote & -> & Hlead & Hquote).
    apply closing_bold_shape in Hc as (trail & -> & Htrail & Hlf).
    exists lead, quote, trail. repeat split; assumption.
  - intros (lead & quote & trail & -> & Hlead & Hquote & Htrail & Hlf & Hdiv & Hsql).
    assert (Ho : NormalizeBold.opening_bold
                   (lead ++ quote ++ str "**" ++ m ++ str "**" ++ trail) =
                 Some (m ++ str "**" ++ trail)).
    { apply opening_bold_shape. exists lead, quote.
      repeat split; assumption. }
    assert (Hc : NormalizeBold.closing_bold (m ++ str "**" ++ trail) = Some m).
    { apply closing_bold_shape. exists trail. repeat split; assumption. }
    rewrite Ho, Hc, Hdiv, Hsql. reflexivity.
Qed.

Lemma bold_classifier_shape_witness :
  NormalizeBold.is_bold_sql_line (str " >  **SELECT * FROM t**  ") =
  Some (str "SELECT * FROM t").
Proof.
  apply bold_classifier_shape.
  exists (str " "), (">"%char :: str "  "), (str "  ").
  repeat split; try reflexivity.
  right. exists (str "  "). split; reflexivity.
Defined.

Lemma space_is_no_word c : is_space c && is_word c = false.
Proof. destruct c as [[] [] [] [] [] [] [] []]; reflexivity. Qed.

Lemma prefix_ci_word_rest p s r :
  prefix_ci p s = Some r -> forallb is_word s = true ->
  forallb is_word r = true.
Proof.
  intros H Hs. apply prefix_ci_spec in H as [m [-> _]].
  rewrite forallb_app in Hs. apply andb_prop in Hs as [_ Hs]. exact Hs.
Qed.

Lemma at_word_end_word r :
  forallb is_word r = true -> at_word_end r = is_empty r.
Proof.
  destruct r as [|c r]; simpl; [reflexivity|]. intros H.
  apply andb_prop in H as [-> _]. reflexivity.
Qed.

Lemma prefix_ci_all p s :
  prefix_ci p s = Some [] <-> map lower s = map lower p.
Proof.
  rewrite prefix_ci_spec. split.
  - intros [m [-> Hm]]. rewrite app_nil_r. exact Hm.
  - intros H. exists s. rewrite app_nil_r. split; [reflexivity|exact H].
Qed.

(** Inside a word no position carries a keyword. *)
Lemma keyword_search_inside_word kws s :
  forallb is_word s = true -> keyword_search_from kws false s = false.
Proof.
  induction s as [|c s IH]; simpl; [reflexivity|]. intros H.
  apply andb_prop in H as [Hc H]. rewrite Hc. simpl. apply IH; assumption.
Qed.

Lemma keyword_at_word s k :
  forallb is_word s = true ->
  keyword_at s k = true <->
  exists w, k = Word w /\ map lower s = map lower (str w).
Proof.
  intros Hs. destruct k as [w|w1 w2]; simpl.
  - destruct (prefix_ci (str w) s) as [r|] eqn:Hp.
    + rewrite (at_word_end_word r) by (eapply prefix_ci_word_rest; eassumption).
      split.
      * intros Hr. destruct r; [|discriminate]. exists w.
        split; [reflexivity|]. apply prefix_ci_all; assumption.
      * intros (w' & [= <-] & Heq). apply prefix_ci_all in Heq.
        rewrite Heq in Hp. injection Hp as <-. reflexivity.
    + split; [discriminate|]. intros (w' & [= <-] & Heq).
      apply prefix_ci_all in Heq. congruence.
  - split; [|intros (w & Hk & _); discriminate].
    destruct (prefix_ci (str w1) s) as [[|c r]|] eqn:Hp; try discriminate.
    pose proof (prefix_ci_word_rest _ _ _ Hp Hs) as Hr. simpl in Hr.
    apply andb_prop in Hr as [Hc _].
    pose proof (space_is_no_word c) as Hsw. rewrite Hc, andb_true_r in Hsw.
    rewrite Hsw. discriminate.
Qed.

(** X3: the keyword part of the SQL heuristic takes whole words only.  On a
    text made of word characters alone (letters, digits, underscore), it
    finds a keyword exactly when the text is one of the one-word keywords,
    in any letter case: a keyword glued to further word characters, in front
    or behind, does not count. *)
Theorem keyword_needs_whole_word (kws : list keyword) (s : pystr)
  (Hword : forallb is_word s = true) :
  keyword_search kws s = true <->
  exists w, In (Word w) kws /\ map lower s = map lower (str w).
Proof.
  unfold keyword_search.
  assert (Htail : keyword_search_from kws true s =
                  existsb (keyword_at s) kws).
  { destruct s as [|c s']; simpl.
    - rewrite orb_false_r. reflexivity.
    - simpl in Hword. apply andb_prop in Hword as [Hc Hs'].
      rewrite Hc. simpl.
      rewrite keyword_search_inside_word, orb_false_r by assumption.
      reflexivity. }
  rewrite Htail, existsb_exists. split.
  - intros (k & Hin & Hk). apply keyword_at_word in Hk as (w & -> & Heq);
      [|assumption]. exists w. split; assumption.
  - intros (w & Hin & Heq). exists (Word w). split; [assumption|].
    apply keyword_at_word; [assumption|]. exists w. split; [reflexivity|assumption].
Qed.

Lemma keyword_needs_whole_word_witness :
  keyword_search FixDivs.SQL_KEYWORDS (str "select") = true /\
  keyword_search FixDivs.SQL_KEYWORDS (str "SELECTED") = false /\
  keyword_search NormalizeBold.SQL_KEYWORDS (str "from_2") = false.
Proof.
  split; [|split].
  - apply (keyword_needs_whole_word _ (str "select") eq_refl).
    exists "SELECT"%string. split; [left; reflexivity|reflexivity].
  - destruct (keyword_search FixDivs.SQL_KEYWORDS (str "SELECTED")) eqn:E;
      [|reflexivity].
    apply (keyword_needs_whole_word _ (str "SELECTED") eq_refl) in E.
    destruct E as (w & Hin & Heq). exfalso.
    apply (f_equal (@length ascii)) in Heq as Hlen.
    simpl in Hin. repeat (destruct Hin as [Hin|Hin]; [discriminate Hin || (injection Hin as <-; discriminate Heq)|]).
    exact Hin.
  - reflexivity.
Defined.

(** X4: a line is a fence delimiter for the bold-SQL scan exactly when it
    is spaces followed by three backticks and anything else.  Such a line is
    never a bold-SQL line: no line is both a boundary of a fenced block and
    a line to convert, whatever the order of the two tests. *)
Theorem fence_line_shape (l : pystr) :
  (NormalizeBold.is_fence_line l = true <->
   exists lead rest,
     l = lead ++ FENCE_CLOSE ++ rest /\ forallb is_space lead = true) /\
  (NormalizeBold.is_fence_line l = true ->
   NormalizeBold.is_bold_sql_line l = None).
Proof.
  split; [split|apply fence_line_not_bold].
  - unfold NormalizeBold.is_fence_line.
    destruct (prefix_cs FENCE_CLOSE (lstrip l)) as [r|] eqn:H; [|discriminate].
    intros _. apply prefix_cs_app in H.
    destruct (lstrip_split l) as [lead [Hl Hlead]].
    exists lead, r. split; [|exact Hlead]. rewrite <- H. exact Hl.
  - intros (lead & rest & -> & Hlead). unfold NormalizeBold.is_fence_line.
    rewrite lstrip_spaces by assumption.
    rewrite lstrip_id, prefix_cs_here; [reflexivity|].
    intros c Hc. simpl in Hc. injection Hc as <-. reflexivity.
Qed.

Lemma fence_line_shape_witness :
  NormalizeBold.is_bold_sql_line (str "  ```sql **SELECT 1;**") = None.
Proof.
  apply (proj2 (fence_line_shape (str "  ```sql **SELECT 1;**"))).
  reflexivity.
Defined.

End Classifiers.

(** * When the fix script leaves a text alone *)

Section FixNoOp.
Import FixDivs.
Local Arguments Ascii.eqb : simpl never.

Lemma join_lf_cons_head c l ls :
  join_lf ((c :: l) :: ls) = c :: join_lf (l :: ls).
Proof. destruct ls; reflexivity. Qed.

Lemma ends_with_lf_cons c a t :
  ends_with_lf (c :: a :: t) = ends_with_lf (a :: t).
Proof. reflexivity. Qed.

(** Cutting a text at its line feeds and joining the lines again gives the
    text back. *)
Lemma join_splitlines t :
  lf_only t = true ->
  join_lf (splitlines t) ++ (if ends_with_lf t then [LF] else []) = t.
Proof.
  induction t as [|c t IH]; [reflexivity|]. intros H.
  cbn [lf_only forallb] in H. apply andb_prop in H as [Hc H].
  specialize (IH H).
  destruct (is_linebreak c) eqn:Hb.
  - simpl in Hc. apply Ascii.eqb_eq in Hc. subst c.
    rewrite splitlines_lf. destruct t as [|a t'].
    + reflexivity.
    + pose proof (splitlines_nonempty (a :: t')) as Hne.
      destruct (splitlines (a :: t')) as [|l ls] eqn:Hs; [exfalso; apply Hne; [discriminate|reflexivity]|].
      rewrite ends_with_lf_cons.
      change (join_lf ([] :: l :: ls)) with (LF :: join_lf (l :: ls)).
      rewrite <- app_comm_cons. f_equal. exact IH.
  - rewrite splitlines_cons_plain by assumption. destruct t as [|a t'].
    + simpl. destruct (Ascii.eqb c LF) eqn:E; [|reflexivity].
      apply Ascii.eqb_eq in E. subst c. discriminate.
    + pose proof (splitlines_nonempty (a :: t')) as Hne.
      destruct (splitlines (a :: t')) as [|l ls] eqn:Hs; [exfalso; apply Hne; [discriminate|reflexivity]|].
      rewrite ends_with_lf_cons, join_lf_cons_head, <- app_comm_cons.
      f_equal. exact IH.
Qed.

Lemma quiet_line_Forall L :
  forallb quiet_line L = true <-> Forall quiet L.
Proof.
  rewrite Forall_forall, forallb_forall. unfold quiet_line, quiet.
  split; intros H l Hl.
  - apply list_elem_of_In in Hl. specialize (H l Hl).
    destruct (is_blockquote_sql_line l) as [[|c r]|]; auto; discriminate.
  - apply list_elem_of_In in Hl. specialize (H l Hl).
    destruct H as [-> | ->]; reflexivity.
Qed.

(** The converter returns the lines it was given only if all are quiet. *)
Lemma convert_lines_fixed_quiet L : convert_lines L = L -> Forall quiet L.
Proof.
  remember (length L) as n eqn:Hn. revert L Hn.
  induction n as [n IH] using lt_wf_ind. intros L Hn Hfix.
  destruct L as [|l ls]; [constructor|].
  destruct (is_blockquote_sql_line l) as [r|] eqn:Hl.
  - rewrite (convert_lines_run _ _ _ Hl) in Hfix. unfold emit_run in Hfix.
    destruct (collect_spec (l :: ls)) as [Hspec Hsaw].
    pose proof (collect_first l ls r Hl) as Hk.
    destruct (collect (l :: ls)) as [sql saw]; simpl fst in *; simpl snd in *.
    destruct saw.
    + exfalso. injection Hfix as Hhead _. subst l. discriminate.
    + rewrite <- (firstn_skipn (length sql) (l :: ls)) in Hfix at 3.
      apply app_inv_head in Hfix.
      rewrite <- (firstn_skipn (length sql) (l :: ls)).
      apply Forall_app. split.
      * symmetry in Hsaw. apply existsb_nonblank_false in Hsaw.
        clear -Hspec Hsaw.
        induction Hspec as [|l' r' ls' sql' Hl' _ IH']; [constructor|].
        inversion Hsaw; subst. constructor; [right; assumption|].
        apply IH'; assumption.
      * eapply IH; [|reflexivity|exact Hfix].
        rewrite length_skipn. subst n. simpl. lia.
  - rewrite (convert_lines_skip _ _ Hl) in Hfix. injection Hfix as Hfix.
    constructor; [left; assumption|].
    eapply IH; [|reflexivity|exact Hfix]. subst n. simpl. lia.
Qed.

Lemma convert_lines_id_iff L :
  convert_lines L = L <-> forallb quiet_line L = true.
Proof.
  rewrite quiet_line_Forall. split;
    [apply convert_lines_fixed_quiet|apply convert_lines_stable].
Qed.

Lemma join_lf_inj L1 L2 :
  Forall (fun l => nobreak l = true) L1 ->
  Forall (fun l => nobreak l = true) L2 ->
  L1 <> [] -> L2 <> [] -> join_lf L1 = join_lf L2 -> L1 = L2.
Proof.
  intros H1 H2 N1 N2 Heq.
  rewrite <- (splitlines_join_lf L1), <- (splitlines_join_lf L2) by assumption.
  rewrite Heq. reflexivity.
Qed.

(** X5: the blockquote converter returns the line sequence it was given
    exactly when the quoted-line classifier accepts no line with a content:
    every line is rejected by the classifier (a quoted line whose content
    fails the SQL heuristic is rejected) or is a blank quoted line.  For a
    text whose only line boundaries are line feeds and which holds no div in
    a sql fence, the two steps of the fix script return the text unchanged
    exactly in that case, and then [normalize_file] returns false and writes
    nothing. *)
Theorem fix_changes_iff_quoted_sql (t : pystr)
  (Hlf : lf_only t = true) (Hdiv : contains_div_in_code t = false) :
  (forall L, convert_lines L = L <-> forallb quiet_line L = true) /\
  (fix_text t = t <-> forallb quiet_line (splitlines t) = true) /\
  (forallb quiet_line (splitlines t) = true ->
   forall path σ, read_text path σ = Some t ->
                  normalize_file path σ = Some (false, σ)).
Proof.
  assert (Hiff : fix_text t = t <-> forallb quiet_line (splitlines t) = true).
  { unfold fix_text. rewrite (remove_div_id _ Hdiv).
    unfold convert_blockquote_sequences.
    rewrite <- convert_lines_id_iff. split.
    - intros Heq. rewrite <- (join_splitlines t Hlf) in Heq at 3.
      apply app_inv_tail in Heq.
      destruct t as [|c t']; [apply convert_lines_nil|].
      apply join_lf_inj; try assumption.
      + apply convert_lines_nobreak, splitlines_nobreak.
      + apply splitlines_nobreak.
      + apply convert_lines_nonempty, splitlines_nonempty. discriminate.
      + apply splitlines_nonempty. discriminate.
    - intros ->. apply join_splitlines; assumption. }
  split; [apply convert_lines_id_iff|]. split; [exact Hiff|].
  intros Hq path σ Hread. unfold normalize_file. rewrite Hread.
  fold (fix_text t). rewrite (proj2 Hiff Hq).
  rewrite bool_decide_eq_true_2 by reflexivity. reflexivity.
Qed.

Lemma fix_changes_iff_quoted_sql_witness :
  FixDivs.fix_text plain_lesson = plain_lesson.
Proof.
  apply (proj1 (proj2 (fix_changes_iff_quoted_sql plain_lesson eq_refl eq_refl))).
  reflexivity.
Defined.

End FixNoOp.

(** * What the scripts write *)

Section WrittenText.
Local Arguments Ascii.eqb : simpl never.

Lemma nobreak_lf_only l : nobreak l = true -> lf_only l = true.
Proof.
  unfold nobreak, lf_only. rewrite !forallb_forall. intros H c Hc.
  rewrite (H c Hc). reflexivity.
Qed.

Lemma lf_only_app a b : lf_only (a ++ b) = lf_only a && lf_only b.
Proof. apply forallb_app. Qed.

Lemma join_lf_lf_only L :
  Forall (fun l => nobreak l = true) L -> lf_only (join_lf L) = true.
Proof.
  induction 1 as [|l L Hl HL IH]; [reflexivity|].
  destruct L as [|l2 L'].
  - simpl. apply nobreak_lf_only; assumption.
  - change (join_lf (l :: l2 :: L')) with (l ++ [LF] ++ join_lf (l2 :: L')).
    rewrite !lf_only_app, (nobreak_lf_only l Hl), IH. reflexivity.
Qed.

Lemma lf_only_no_cr t :
  lf_only t = true -> forallb (fun c => negb (Ascii.eqb c CR)) t = true.
Proof.
  unfold lf_only. rewrite !forallb_forall. intros H c Hc.
  specialize (H c Hc). destruct (Ascii.eqb c CR) eqn:E; [|reflexivity].
  apply Ascii.eqb_eq in E. subst c. discriminate.
Qed.

Lemma fix_text_lf_only t : lf_only (FixDivs.fix_text t) = true.
Proof.
  unfold FixDivs.fix_text, FixDivs.convert_blockquote_sequences.
  rewrite lf_only_app, join_lf_lf_only
    by (apply convert_lines_nobreak, splitlines_nobreak).
  destruct (ends_with_lf _); reflexivity.
Qed.

Lemma new_text_lf_only b t :
  lf_only (NormalizeBold.new_text (fst (NormalizeBold.scan b (splitlines t))))
  = true.
Proof.
  unfold NormalizeBold.new_text.
  rewrite lf_only_app, join_lf_lf_only
    by (apply scan_nobreak, splitlines_nobreak).
  reflexivity.
Qed.

(** X6: whatever the line boundaries of the input are, the text that the
    fix script computes and the text that the bold script writes back hold
    no line boundary but the line feed; [read_text] therefore returns them
    as they were written. *)
Theorem written_text_lf_only (t : pystr) :
  lf_only (FixDivs.fix_text t) = true /\
  lf_only (NormalizeBold.new_text
             (fst (NormalizeBold.scan false (splitlines t)))) = true /\
  universal_newlines (FixDivs.fix_text t) = FixDivs.fix_text t /\
  universal_newlines
    (NormalizeBold.new_text (fst (NormalizeBold.scan false (splitlines t)))) =
  NormalizeBold.new_text (fst (NormalizeBold.scan false (splitlines t))).
Proof.
  repeat split.
  - apply fix_text_lf_only.
  - apply new_text_lf_only.
  - apply universal_newlines_id, lf_only_no_cr, fix_text_lf_only.
  - apply universal_newlines_id, lf_only_no_cr, new_text_lf_only.
Qed.

(** A text that was read holds no carriage return. *)
Lemma universal_newlines_no_cr s :
  forallb (fun c => negb (Ascii.eqb c CR)) (universal_newlines s) = true.
Proof.
  remember (length s) as n eqn:Hn. revert s Hn.
  induction n as [n IH] using lt_wf_ind. intros s Hn.
  destruct s as [|c s]; [reflexivity|]. cbn [universal_newlines].
  destruct (Ascii.eqb c CR) eqn:Hc.
  - destruct s as [|c2 s2]; [reflexivity|].
    destruct (Ascii.eqb c2 LF); cbn [forallb].
    + rewrite (IH (length s2)); [reflexivity|subst n; simpl; lia|reflexivity].
    + rewrite (IH (length (c2 :: s2)));
        [reflexivity|subst n; simpl; lia|reflexivity].
  - cbn [forallb]. rewrite Hc.
    rewrite (IH (length s)); [reflexivity|subst n; simpl; lia|reflexivity].
Qed.

Lemma read_text_no_cr path σ orig :
  read_text path σ = Some orig ->
  forallb (fun c => negb (Ascii.eqb c CR)) orig = true.
Proof.
  unfold read_text. destruct (files σ !! path) as [raw|]; [|discriminate].
  intros [= <-]. apply universal_newlines_no_cr.
Qed.

Lemma read_other path q t σ :
  q <> path -> read_text q (write_text path t σ) = read_text q σ.
Proof.
  intros H. unfold read_text, write_text. simpl.
  rewrite lookup_insert_ne by congruence. reflexivity.
Qed.

(** X7: the effect of [normalize_file] on the files, for either script.
    After a run on a readable file, reading the file returns the transform
    of the text read before ([fix_text], respectively [normalized_text]);
    when the run returns true, reading the backup returns the text read
    before; and every file other than the file and its backup is as it
    was. *)
Theorem normalize_file_effect (path : string) (σ σ' : filesystem)
  (orig : pystr) (changed : bool)
  (Hread : read_text path σ = Some orig) :
  (FixDivs.normalize_file path σ = Some (changed, σ') ->
   read_text path σ' = Some (FixDivs.fix_text orig) /\
   (changed = true ->
    read_text (with_added_suffix path ".fixbak") σ' = Some orig) /\
   (forall q, q <> path -> q <> with_added_suffix path ".fixbak" ->
              files σ' !! q = files σ !! q)) /\
  (NormalizeBold.normalize_file path σ = Some (changed, σ') ->
   read_text path σ' = Some (NormalizeBold.normalized_text orig) /\
   (changed = true ->
    read_text (with_added_suffix path ".bak") σ' = Some orig) /\
   (forall q, q <> path -> q <> with_added_suffix path ".bak" ->
              files σ' !! q = files σ !! q)).
Proof.
  pose proof (read_text_no_cr _ _ _ Hread) as Hcr.
  split.
  - unfold FixDivs.normalize_file, FixDivs.BACKUP_SUFFIX. rewrite Hread.
    fold (FixDivs.fix_text orig).
    destruct (bool_decide (FixDivs.fix_text orig = orig)) eqn:Hd; simpl.
    + apply bool_decide_eq_true in Hd. intros [= <- <-].
      repeat split; [congruence|discriminate].
    + intros [= <- <-]. repeat split.
      * apply read_after_write, fix_text_no_cr.
      * intros _. rewrite read_other by (apply with_added_suffix_ne; discriminate).
        apply read_after_write; assumption.
      * intros q Hq1 Hq2. simpl.
        rewrite !lookup_insert_ne by congruence. reflexivity.
  - unfold NormalizeBold.normalize_file, NormalizeBold.normalized_text,
      NormalizeBold.BAK_SUFFIX.
    rewrite Hread.
    pose proof (new_text_lf_only false orig) as Hlf.
    destruct (NormalizeBold.scan false (splitlines orig)) as [out ch].
    simpl in Hlf. destruct ch.
    + intros [= <- <-]. repeat split.
      * apply read_after_write, lf_only_no_cr; assumption.
      * intros _. rewrite read_other by (apply with_added_suffix_ne; discriminate).
        apply read_after_write; assumption.
      * intros q Hq1 Hq2. simpl.
        rewrite !lookup_insert_ne by congruence. reflexivity.
    + intros [= <- <-]. repeat split; [assumption|discriminate].
Qed.

Lemma normalize_file_effect_witness :
  exists σ',
    FixDivs.normalize_file "lesson.md" lesson_files = Some (true, σ') /\
    read_text "lesson.md" σ' = Some (FixDivs.fix_text lesson_text) /\
    read_text "lesson.md.fixbak" σ' = Some lesson_text.
Proof.
  eexists. split; [reflexivity|].
  pose proof (proj1 (normalize_file_effect "lesson.md" lesson_files _
                       lesson_text true eq_refl) eq_refl) as (H1 & H2 & _).
  split; [exact H1|exact (H2 eq_refl)].
Defined.

End WrittenText.

(** * What the div-in-code remover does to a text *)

Section DivRemoval.
Import FixDivs.
Local Arguments Ascii.eqb : simpl never.

Lemma remove_div_sublist t : remove_div_code_blocks t `sublist_of` t.
Proof.
  remember (length t) as n eqn:Hn. revert t Hn.
  induction n as [n IH] using lt_wf_ind. intros t Hn.
  destruct t as [|c t]; [rewrite remove_div_nil; constructor|].
  destruct (div_in_code_match (c :: t)) as [[g rest]|] eqn:Hm.
  - rewrite (remove_div_match _ _ _ _ Hm).
    pose proof (div_in_code_match_length _ _ _ Hm) as Hlen.
    destruct (div_in_code_match_split _ _ _ Hm) as (a & w & Hs & _ & _).
    rewrite Hs. apply sublist_inserts_l. apply sublist_app; [reflexivity|].
    apply sublist_inserts_l. eapply IH; [|reflexivity]. subst n. exact Hlen.
  - rewrite (remove_div_no_match _ _ Hm). apply sublist_skip.
    eapply IH; [|reflexivity]. subst n. simpl. lia.
Qed.

Lemma remove_div_shrinks t :
  contains_div_in_code t = true ->
  length (remove_div_code_blocks t) + 9 <= length t.
Proof.
  induction t as [|c t IH]; [discriminate|].
  unfold contains_div_in_code; fold contains_div_in_code.
  destruct (div_in_code_match (c :: t)) as [[g rest]|] eqn:Hm.
  - intros _. rewrite (remove_div_match _ _ _ _ Hm).
    destruct (div_in_code_match_split _ _ _ Hm) as (a & w & Hs & Ha & Hw).
    pose proof (sublist_length _ _ (remove_div_sublist rest)) as Hr.
    rewrite Hs. rewrite !length_app. lia.
  - intros H. rewrite (remove_div_no_match _ _ Hm). specialize (IH H).
    simpl. lia.
Qed.

(** X8: the div-in-code remover only deletes characters: its result is what
    is left of the text when some characters are dropped, in the same order.
    It changes the text exactly when [contains_div_in_code] holds, and each
    such text gets shorter by the two fence markers at least (nine
    characters). *)
Theorem remove_div_only_deletes (t : pystr) :
  remove_div_code_blocks t `sublist_of` t /\
  (contains_div_in_code t = true <-> remove_div_code_blocks t <> t) /\
  (contains_div_in_code t = true ->
   length (remove_div_code_blocks t) + 9 <= length t).
Proof.
  split; [apply remove_div_sublist|]. split; [|apply remove_div_shrinks].
  split.
  - intros H Heq. apply remove_div_shrinks in H. rewrite Heq in H. lia.
  - intros Hne. destruct (contains_div_in_code t) eqn:Hc; [reflexivity|].
    exfalso. apply Hne. apply remove_div_id; assumption.
Qed.

Lemma remove_div_only_deletes_witness :
  length (remove_div_code_blocks
            (str "```sql" ++ LF ::
             str "<div style=text-align:center>x</div>" ++ LF :: str "```"))
  + 9 <=
  length (str "```sql" ++ LF ::
          str "<div style=text-align:center>x</div>" ++ LF :: str "```").
Proof.
  apply (proj2 (proj2 (remove_div_only_deletes
           (str "```sql" ++ LF ::
            str "<div style=text-align:center>x</div>" ++ LF :: str "```")))).
  reflexivity.
Defined.

(** An occurrence of a literal, in any letter case. *)
Lemma contains_ci_spec p s :
  contains_ci p s = true <->
  exists a m b, s = a ++ m ++ b /\ map lower m = map lower p.
Proof.
  split.
  - induction s as [|c s IH]; simpl.
    + destruct (prefix_ci p []) as [r|] eqn:Hp; [|discriminate]. intros _.
      apply prefix_ci_spec in Hp as [m [Hs Hm]]. exists [], m, r.
      split; assumption.
    + destruct (prefix_ci p (c :: s)) as [r|] eqn:Hp.
      * intros _. apply prefix_ci_spec in Hp as [m [Hs Hm]].
        exists [], m, r. split; assumption.
      * intros H. destruct (IH H) as (a & m & b & -> & Hm).
        exists (c :: a), m, b. split; [reflexivity|assumption].
  - intros (a & m & b & -> & Hm). apply (contains_ci_app p a (m ++ b) b).
    apply prefix_ci_spelling; assumption.
Qed.

Lemma contains_ci_infix p a x b :
  contains_ci p x = true -> contains_ci p (a ++ x ++ b) = true.
Proof.
  rewrite !contains_ci_spec. intros (a' & m & b' & -> & Hm).
  exists (a ++ a'), m, (b' ++ b). split; [|assumption].
  rewrite <- !app_assoc. reflexivity.
Qed.

Lemma div_in_code_match_landmarks s g rest :
  div_in_code_match s = Some (g, rest) -> landmarks s = true.
Proof.
  unfold div_in_code_match.
  destruct (prefix_ci FENCE_OPEN s) as [s1|] eqn:H1; [|discriminate].
  destruct (prefix_ci (str "<div") (lstrip s1)) as [s3|] eqn:H3; [|discriminate].
  destruct (until_gt s3) as [[attrs s4]|] eqn:H4; [|discriminate].
  destruct (contains_ci _ attrs) eqn:Hhint; [|discriminate].
  destruct (find_close s4) as [[body rest']|] eqn:H5; [|discriminate].
  intros _.
  destruct (lstrip_split s1) as [ws [Hs1 _]].
  apply until_gt_split in H4.
  pose proof H1 as H1'. pose proof H3 as H3'.
  apply prefix_ci_take in H1', H3'.
  assert (Hclose : contains_ci CLOSE_TAG s4 = true).
  { clear -H5. revert body rest' H5. induction s4 as [|c s4 IH];
      intros body rest' H5; [discriminate|].
    unfold find_close in H5; fold find_close in H5.
    cbn [contains_ci].
    destruct (closes_here (c :: s4)) as [r1|] eqn:Hc.
    - unfold closes_here in Hc. change (str "</div>") with CLOSE_TAG in Hc.
      destruct (prefix_ci CLOSE_TAG (c :: s4)); [reflexivity|discriminate].
    - destruct (find_close s4) as [[b' r']|] eqn:Hf; [|discriminate].
      destruct (prefix_ci CLOSE_TAG (c :: s4)); [reflexivity|].
      eapply IH. reflexivity. }
  assert (E1 : contains_ci FENCE_OPEN s = true).
  { apply (contains_ci_app FENCE_OPEN [] s s1). exact H1. }
  set (m1 := firstn (length FENCE_OPEN) s) in *.
  set (m3 := firstn (length (str "<div")) (lstrip s1)) in *.
  assert (Hs : s = (m1 ++ ws) ++ lstrip s1).
  { rewrite <- app_assoc, <- Hs1. exact H1'. }
  assert (E3 : contains_ci (str "<div") s = true).
  { rewrite Hs. apply (contains_ci_app _ _ (lstrip s1) s3). exact H3. }
  assert (E4 : contains_ci (str "text-align:") s = true).
  { rewrite Hs, H3', H4, app_assoc.
    apply (contains_ci_infix _ _ attrs (">"%char :: s4)). assumption. }
  assert (E5 : contains_ci CLOSE_TAG s = true).
  { rewrite Hs, H3', H4.
    replace ((m1 ++ ws) ++ m3 ++ attrs ++ ">"%char :: s4)
      with (((m1 ++ ws) ++ m3 ++ attrs ++ [">"%char]) ++ s4 ++ [])
      by (rewrite app_nil_r, <- !app_assoc; reflexivity).
    apply contains_ci_infix. assumption. }
  unfold landmarks. rewrite E1, E3, E4, E5. reflexivity.
Qed.

Lemma contains_ci_later p c t :
  contains_ci p t = true -> contains_ci p (c :: t) = true.
Proof.
  intros H. cbn [contains_ci]. rewrite H.
  destruct (prefix_ci p (c :: t)); reflexivity.
Qed.

Lemma landmarks_cons c t : landmarks t = true -> landmarks (c :: t) = true.
Proof.
  unfold landmarks. intros H.
  apply andb_prop in H as [H H4]. apply andb_prop in H as [H H3].
  apply andb_prop in H as [H1 H2].
  rewrite !contains_ci_later by assumption. reflexivity.
Qed.

(** X9: the div-in-code remover needs all four landmarks of its pattern.  A
    text that lacks the sql fence opener, or an opening div tag, or a
    text-align hint, or a closing div tag (each in any letter case) is
    returned unchanged. *)
Theorem remove_div_needs_landmarks (t : pystr)
  (Hlack : landmarks t = false) :
  contains_div_in_code t = false /\ remove_div_code_blocks t = t.
Proof.
  assert (Hc : contains_div_in_code t = false).
  { destruct (contains_div_in_code t) eqn:Hc; [|reflexivity]. exfalso.
    revert Hlack. apply not_false_iff_true.
    induction t as [|c t IH].
    - simpl in Hc. discriminate.
    - unfold contains_div_in_code in Hc; fold contains_div_in_code in Hc.
      destruct (div_in_code_match (c :: t)) as [[g rest]|] eqn:Hm.
      + eapply div_in_code_match_landmarks; eassumption.
      + apply landmarks_cons, IH, Hc. }
  split; [exact Hc|apply remove_div_id; exact Hc].
Qed.

Lemma remove_div_needs_landmarks_witness :
  remove_div_code_blocks
    (str "```python" ++ LF :: str "<div style=text-align:center>x</div>" ++
     LF :: str "```") =
  str "```python" ++ LF :: str "<div style=text-align:center>x</div>" ++
  LF :: str "```".
Proof.
  apply (remove_div_needs_landmarks
           (str "```python" ++ LF ::
            str "<div style=text-align:center>x</div>" ++ LF :: str "```")).
  reflexivity.
Defined.

End DivRemoval.

(** * Runs and the changed flag of the bold-SQL scan *)

Section BoldRuns.
Import NormalizeBold.

Lemma bold_collect_run run inners post :
  Forall2 (fun l m => is_bold_sql_line l = Some m) run inners ->
  (forall x, head post = Some x -> is_bold_sql_line x = None) ->
  collect_bold_run (run ++ post) = inners.
Proof.
  intros Hrun Hpost. induction Hrun as [|l m run inners Hl _ IH]; simpl.
  - destruct post as [|x post]; simpl; [reflexivity|].
    rewrite (Hpost x eq_refl). reflexivity.
  - rewrite Hl, IH. reflexivity.
Qed.

(** X10: consecutive bold-SQL lines are merged.  A run of such lines that
    the scan reaches outside a fence, bounded on either side by the end of
    the input or by a line that is no bold-SQL line, is replaced by exactly
    one fenced block that holds the contents of the lines in their order;
    the lines before and after are processed as they would be on their
    own. *)
Theorem bold_run_fenced (pre run post inners : list pystr)
  (Hne : run <> [])
  (Hrun : Forall2 (fun l m => is_bold_sql_line l = Some m) run inners)
  (Hpre : forall x, last pre = Some x -> is_bold_sql_line x = None)
  (Hfence : fence_after false pre = false)
  (Hpost : forall x, head post = Some x -> is_bold_sql_line x = None) :
  scan false (pre ++ run ++ post) =
  then_scan (scan false pre)
    (then_scan (FENCE_OPEN :: inners ++ [FENCE_CLOSE], true) (scan false post)).
Proof.
  rewrite scan_app_last by assumption. rewrite Hfence. f_equal.
  destruct Hrun as [|l m run inners Hl Hrun]; [congruence|].
  rewrite <- app_comm_cons, (scan_bold _ _ _ Hl).
  rewrite (bold_collect_run run inners post Hrun Hpost).
  rewrite <- (Forall2_length _ _ _ Hrun).
  rewrite skipn_app, skipn_all, Nat.sub_diag. simpl skipn.
  unfold emit_block, then_scan. simpl. rewrite <- app_assoc. reflexivity.
Qed.

Lemma bold_run_fenced_witness :
  scan false [str "Intro"; str "**SELECT a**"; str "> **FROM b**";
              str "**WHERE c = 1;**"; str "Outro"] =
  ([str "Intro"; str "```sql"; str "SELECT a"; str "FROM b";
    str "WHERE c = 1;"; str "```"; str "Outro"], true).
Proof.
  refine (bold_run_fenced [str "Intro"]
            [str "**SELECT a**"; str "> **FROM b**"; str "**WHERE c = 1;**"]
            [str "Outro"] [str "SELECT a"; str "FROM b"; str "WHERE c = 1;"]
            _ _ _ _ _).
  - discriminate.
  - repeat constructor.
  - intros x [= <-]. reflexivity.
  - reflexivity.
  - intros x [= <-]. reflexivity.
Defined.

Lemma fence_after_cons b l ls :
  fence_after b (l :: ls) =
  fence_after (if is_fence_line l then negb b else b) ls.
Proof. reflexivity. Qed.

Lemma scan_changed_split b L :
  snd (scan b L) = true ->
  exists pre l post,
    L = pre ++ l :: post /\ fence_after b pre = false /\
    is_bold_sql_line l <> None.
Proof.
  funelim (scan b L); simpl; intros Hc.
  - discriminate.
  - destruct (H Hc) as (pre & l & post & -> & Hf & Hl).
    exists (line :: pre), l, post. rewrite fence_after_cons, Heq.
    repeat split; assumption.
  - destruct (H Hc) as (pre & l & post & -> & Hf & Hl).
    exists (line :: pre), l, post. rewrite fence_after_cons, Heq.
    repeat split; assumption.
  - exists [], line, ls. repeat split. congruence.
  - destruct (H Hc) as (pre & l & post & -> & Hf & Hl).
    exists (line :: pre), l, post. rewrite fence_after_cons, Heq0.
    repeat split; assumption.
Qed.

Lemma scan_changed_by pre l post b :
  fence_after b pre = false -> is_bold_sql_line l <> None ->
  snd (scan b (pre ++ l :: post)) = true.
Proof.
  revert b. induction pre as [|x pre IH]; intros b Hf Hl.
  - simpl in Hf. subst b. simpl.
    destruct (is_bold_sql_line l) as [m|] eqn:Hm; [|congruence].
    rewrite (scan_bold _ _ _ Hm). reflexivity.
  - rewrite fence_after_cons in Hf. rewrite <- app_comm_cons.
    destruct (is_bold_sql_line x) as [m|] eqn:Hx.
    + pose proof (bold_line_not_fence _ _ Hx) as Hnf. rewrite Hnf in Hf.
      destruct b.
      * rewrite scan_inside by assumption. simpl. apply IH; assumption.
      * rewrite (scan_bold _ _ _ Hx). reflexivity.
    + rewrite (scan_not_bold _ _ _ Hx). simpl. apply IH; assumption.
Qed.

(** X11: the changed flag of the bold-SQL scan is set exactly when some
    bold-SQL line is met outside a fence, that is, when the input splits
    into lines after which the fence state is off, followed by a line that
    the bold classifier accepts.  In particular an input without any such
    line is returned as it is: [normalize_file] then writes nothing. *)
Theorem bold_changed_iff (b : bool) (L : list pystr) :
  (snd (scan b L) = true <->
   exists pre l post,
     L = pre ++ l :: post /\ fence_after b pre = false /\
     is_bold_sql_line l <> None) /\
  (snd (scan b L) = false -> fst (scan b L) = L).
Proof.
  split; [split|apply scan_unchanged].
  - apply scan_changed_split.
  - intros (pre & l & post & -> & Hf & Hl). apply scan_changed_by; assumption.
Qed.

Lemma bold_changed_iff_witness :
  fst (scan true [str "**SELECT 1;**"; str "text"]) =
  [str "**SELECT 1;**"; str "text"].
Proof.
  apply (proj2 (bold_changed_iff true [str "**SELECT 1;**"; str "text"])).
  reflexivity.
Defined.

End BoldRuns.

(** * The line feed at the end of the text *)

Section TrailingNewline.
Import FixDivs.
Local Arguments Ascii.eqb : simpl never.

Lemma ends_with_lf_tail c s :
  s <> [] -> ends_with_lf (c :: s) = ends_with_lf s.
Proof. destruct s; [congruence|reflexivity]. Qed.

Lemma fence_close_nonempty : FENCE_CLOSE <> [].
Proof. intros E. vm_compute in E. discriminate E. Qed.

Lemma closes_here_tail s rest :
  closes_here s = Some rest ->
  (exists u, s = u ++ FENCE_CLOSE ++ rest) /\
  firstn 6 s <> [] /\ ends_with_lf (firstn 6 s) = false.
Proof.
  unfold closes_here.
  destruct (prefix_ci (str "</div>") s) as [r|] eqn:Hp; [|discriminate].
  intros Hf. apply prefix_cs_app in Hf.
  destruct (lstrip_split r) as [ws [Hr _]].
  pose proof (prefix_ci_take _ _ _ Hp) as Ht. simpl length in Ht.
  split.
  - exists (firstn 6 s ++ ws). rewrite Ht at 1. rewrite Hr at 1.
    rewrite Hf, <- app_assoc. reflexivity.
  - apply prefix_ci_spec in Hp as [m [-> Hm]].
    change (map lower (str "</div>")) with (str "</div>") in Hm.
    destruct m as [|a1 [|a2 [|a3 [|a4 [|a5 [|a6 [|a7 m]]]]]]];
      try discriminate Hm.
    simpl firstn. split; [discriminate|].
    change (Ascii.eqb a6 LF = false).
    injection Hm as _ _ _ _ _ H6.
    destruct (Ascii.eqb a6 LF) eqn:E; [|reflexivity].
    apply Ascii.eqb_eq in E. subst a6. discriminate H6.
Qed.

Lemma find_close_tail s b rest :
  find_close s = Some (b, rest) ->
  (exists u, s = u ++ FENCE_CLOSE ++ rest) /\
  b <> [] /\ ends_with_lf b = false.
Proof.
  revert b rest; induction s as [|c s IH]; intros b rest; [discriminate|].
  unfold find_close; fold find_close.
  destruct (closes_here (c :: s)) as [r1|] eqn:Hc.
  - intros [= <- <-]. apply closes_here_tail; assumption.
  - destruct (find_close s) as [[b' r']|]; [|discriminate].
    intros [= <- <-]. destruct (IH _ _ eq_refl) as ([u Hu] & Hb & He).
    split; [exists (c :: u); rewrite Hu at 1; reflexivity|].
    split; [discriminate|]. rewrite ends_with_lf_tail; assumption.
Qed.

(** A match ends with the closing fence, and its group with the closing
    tag. *)
Lemma div_in_code_match_tail s g rest :
  div_in_code_match s = Some (g, rest) ->
  (exists u, s = u ++ FENCE_CLOSE ++ rest) /\
  g <> [] /\ ends_with_lf g = false.
Proof.
  unfold div_in_code_match.
  destruct (prefix_ci FENCE_OPEN s) as [s1|] eqn:H1; [|discriminate].
  destruct (prefix_ci (str "<div") (lstrip s1)) as [s3|] eqn:H3; [|discriminate].
  destruct (until_gt s3) as [[attrs s4]|] eqn:H4; [|discriminate].
  destruct (contains_ci _ attrs); [|discriminate].
  destruct (find_close s4) as [[body rest']|] eqn:H5; [|discriminate].
  intros [= <- <-].
  apply find_close_tail in H5 as ([u Hu] & Hb & He).
  apply prefix_ci_take in H1, H3. simpl length in H1, H3.
  apply until_gt_split in H4.
  destruct (lstrip_split s1) as [ws [Hs1 _]].
  split; [|split].
  - exists (firstn 6 s ++ ws ++ firstn 4 (lstrip s1) ++ attrs ++ ">"%char :: u).
    rewrite H1 at 1. rewrite Hs1 at 1. rewrite H3 at 1. rewrite H4, Hu.
    rewrite <- !app_assoc. reflexivity.
  - intros E. apply app_eq_nil in E as [_ E].
    apply app_eq_nil in E as [_ E]. discriminate E.
  - change (">"%char :: body) with ([">"%char] ++ body).
    rewrite !app_assoc. rewrite ends_with_lf_app by assumption. exact He.
Qed.

Lemma remove_div_nonempty (t : pystr) : t <> [] -> remove_div_code_blocks t <> [].
Proof.
  destruct t as [|c t]; [congruence|]. intros _.
  destruct (div_in_code_match (c :: t)) as [[g rest]|] eqn:Hm.
  - rewrite (remove_div_match _ _ _ _ Hm).
    apply div_in_code_match_tail in Hm as (_ & Hg & _).
    intros E. apply app_eq_nil in E as [E _]. contradiction.
  - rewrite (remove_div_no_match _ _ Hm). discriminate.
Qed.

Lemma remove_div_ends (t : pystr) :
  ends_with_lf (remove_div_code_blocks t) = ends_with_lf t.
Proof.
  remember (length t) as n eqn:Hn. revert t Hn.
  induction n as [n IH] using lt_wf_ind. intros t Hn.
  destruct t as [|c t]; [rewrite remove_div_nil; reflexivity|].
  destruct (div_in_code_match (c :: t)) as [[g rest]|] eqn:Hm.
  - rewrite (remove_div_match _ _ _ _ Hm).
    pose proof (div_in_code_match_length _ _ _ Hm) as Hlen.
    destruct (div_in_code_match_tail _ _ _ Hm) as ([u Hu] & Hg & He).
    rewrite Hu. clear Hm Hu. destruct rest as [|r0 rest'].
    + rewrite remove_div_nil, !app_nil_r.
      rewrite (ends_with_lf_app u) by apply fence_close_nonempty.
      rewrite He. reflexivity.
    + rewrite (ends_with_lf_app g)
        by (apply remove_div_nonempty; discriminate).
      rewrite app_assoc, (ends_with_lf_app (u ++ FENCE_CLOSE)) by discriminate.
      eapply IH; [|reflexivity]. subst n. exact Hlen.
  - rewrite (remove_div_no_match _ _ Hm). destruct t as [|c2 t'].
    + rewrite remove_div_nil. reflexivity.
    + rewrite ends_with_lf_tail by (apply remove_div_nonempty; discriminate).
      rewrite (IH (length (c2 :: t')));
        [reflexivity|subst n; simpl; lia|reflexivity].
Qed.

Lemma remove_div_lf_only (t : pystr) :
  lf_only t = true -> lf_only (remove_div_code_blocks t) = true.
Proof.
  unfold lf_only. rewrite !forallb_forall. intros H c Hc. apply H.
  apply list_elem_of_In. apply list_elem_of_In in Hc.
  eapply elem_of_sublist; [exact Hc|apply remove_div_sublist].
Qed.

(** The last line of a text that does not end with a line feed. *)
Lemma splitlines_last (t : pystr) :
  lf_only t = true -> ends_with_lf t = false -> t <> [] ->
  exists x, last (splitlines t) = Some x /\ x <> [].
Proof.
  intros Hlf He Hne.
  pose proof (join_splitlines t Hlf) as Hj. rewrite He, app_nil_r in Hj.
  pose proof (splitlines_nonempty t Hne) as HL.
  destruct (splitlines t) as [|x L0 _] using rev_ind; [congruence|].
  exists x. split; [apply last_snoc|]. intros ->.
  destruct L0 as [|a L0'].
  - simpl in Hj. congruence.
  - rewrite join_lf_snoc in Hj by discriminate.
    rewrite <- Hj in He. rewrite ends_with_lf_snoc in He.
    rewrite Ascii.eqb_refl in He. discriminate He.
Qed.

(** The converter never ends its output with an empty line unless its input
    ends with one. *)
Lemma convert_lines_last (L : list pystr) (x : pystr) :
  last L = Some x -> x <> [] ->
  exists y, last (convert_lines L) = Some y /\ y <> [].
Proof.
  remember (length L) as n eqn:Hn. revert L Hn.
  induction n as [n IH] using lt_wf_ind. intros L Hn Hlast Hx.
  destruct L as [|l ls]; [discriminate|].
  destruct (is_blockquote_sql_line l) as [r|] eqn:Hl.
  - rewrite (convert_lines_run _ _ _ Hl).
    pose proof (collect_first l ls r Hl) as Hk.
    unfold emit_run.
    match goal with
    | |- context [skipn ?k0 (l :: ls)] =>
        change (k0 = S (length (fst (collect ls)))) in Hk;
        pose proof (firstn_skipn k0 (l :: ls)) as Hsplit;
        pose proof (length_skipn k0 (l :: ls)) as Hlen;
        destruct (skipn k0 (l :: ls)) as [|z rest]
    end.
    + rewrite convert_lines_nil, app_nil_r. rewrite app_nil_r in Hsplit.
      destruct (collect (l :: ls)) as [sql saw]. simpl fst in *.
      destruct saw.
      * exists FENCE_CLOSE. split; [|apply fence_close_nonempty].
        rewrite app_comm_cons. apply last_snoc.
      * exists x. rewrite Hsplit. split; assumption.
    + assert (Hz : last (z :: rest) = Some x).
      { rewrite <- Hsplit, last_app in Hlast.
        destruct (last (z :: rest)) eqn:E; [exact Hlast|].
        apply last_None in E. discriminate E. }
      destruct (IH (length (z :: rest))) with (L := z :: rest)
        as (y & Hy & Hyne); [|reflexivity|exact Hz|exact Hx|].
      { rewrite Hlen, Hk. subst n. simpl. lia. }
      exists y. split; [|exact Hyne]. rewrite last_app, Hy. reflexivity.
  - rewrite (convert_lines_skip _ _ Hl). destruct ls as [|l2 ls'].
    + rewrite convert_lines_nil. exists l. injection Hlast as <-.
      split; [reflexivity|assumption].
    + rewrite last_cons_cons in Hlast.
      destruct (IH (length (l2 :: ls'))) with (L := l2 :: ls')
        as (y & Hy & Hyne);
        [subst n; simpl; lia|reflexivity|exact Hlast|exact Hx|].
      exists y. split; [|exact Hyne]. rewrite last_cons, Hy. reflexivity.
Qed.

Lemma convert_ends (t : pystr) :
  lf_only t = true ->
  ends_with_lf (convert_blockquote_sequences t) = ends_with_lf t.
Proof.
  intros Hlf. unfold convert_blockquote_sequences.
  destruct (ends_with_lf t) eqn:He.
  - apply ends_with_lf_snoc.
  - rewrite app_nil_r. destruct t as [|c t'].
    + simpl splitlines. rewrite convert_lines_nil. reflexivity.
    + destruct (splitlines_last (c :: t') Hlf He) as (x & Hx & Hne);
        [discriminate|].
      destruct (convert_lines_last _ _ Hx Hne) as (y & Hy & Hyne).
      apply (ends_with_lf_join _ y); [|assumption|assumption].
      apply convert_lines_nobreak, splitlines_nobreak.
Qed.

(** X12: the line feed at the end of the text.  The fix script keeps it as
    it is: for a text whose only line boundaries are line feeds, the fixed
    text ends with a line feed exactly when the text does, and so does the
    text after the div-in-code remover alone, for any text.  The bold script
    adds one: the text of the file after [normalize_file] ends with a line
    feed exactly when the original did or something was converted. *)
Theorem trailing_newline_policy (t : pystr) (Hlf : lf_only t = true) :
  ends_with_lf (remove_div_code_blocks t) = ends_with_lf t /\
  ends_with_lf (fix_text t) = ends_with_lf t /\
  ends_with_lf (NormalizeBold.normalized_text t) =
    ends_with_lf t || snd (NormalizeBold.scan false (splitlines t)).
Proof.
  split; [apply remove_div_ends|]. split.
  - unfold fix_text. rewrite convert_ends by (apply remove_div_lf_only, Hlf).
    apply remove_div_ends.
  - unfold NormalizeBold.normalized_text.
    destruct (NormalizeBold.scan false (splitlines t)) as [out ch].
    destruct ch; simpl.
    + rewrite orb_true_r. apply ends_with_lf_snoc.
    + rewrite orb_false_r. reflexivity.
Qed.

Lemma trailing_newline_policy_witness :
  ends_with_lf (fix_text (str "> SELECT 1")) = false /\
  ends_with_lf (NormalizeBold.normalized_text (str "**SELECT 1;**")) = true.
Proof.
  split.
  - exact (proj1 (proj2 (trailing_newline_policy (str "> SELECT 1") eq_refl))).
  - exact (proj2 (proj2 (trailing_newline_policy (str "**SELECT 1;**")
                           eq_refl))).
Defined.

End TrailingNewline.

(** * Where the output lines come from *)

Section LinesKept.
Local Arguments Ascii.eqb : simpl never.

Lemma from_input_mono classify L L' o :
  L `sublist_of` L' -> from_input classify L o -> from_input classify L' o.
Proof.
  intros Hsub [H|[H|[H|(l & Hl & Hc)]]].
  - left. eapply elem_of_sublist; eassumption.
  - right; left; assumption.
  - right; right; left; assumption.
  - right; right; right. exists l. split; [|assumption].
    eapply elem_of_sublist; eassumption.
Qed.

Lemma classified_run_filter (classify : pystr -> option pystr) run inners :
  Forall2 (fun l r => classify l = Some r) run inners ->
  filter (fun l => classify l = None) run = [].
Proof.
  induction 1 as [|l r run inners Hl _ IH]; [reflexivity|].
  rewrite filter_cons_False by congruence. exact IH.
Qed.

Lemma classified_run_from_input (classify : pystr -> option pystr) run inners :
  Forall2 (fun l r => classify l = Some r) run inners ->
  Forall (from_input classify run) inners.
Proof.
  induction 1 as [|l r run inners Hl _ IH]; constructor.
  - right; right; right. exists l. split; [apply elem_of_cons; left; reflexivity|exact Hl].
  - eapply Forall_impl; [exact IH|]. intros o Ho.
    eapply from_input_mono; [|exact Ho]. apply sublist_cons. reflexivity.
Qed.

Lemma input_from_input classify (L : list pystr) :
  Forall (from_input classify L) L.
Proof. apply Forall_forall. intros o Ho. left. exact Ho. Qed.

Lemma convert_keeps_rejected (L : list pystr) :
  filter (fun l => FixDivs.is_blockquote_sql_line l = None) L
    `sublist_of` FixDivs.convert_lines L.
Proof.
  remember (length L) as n eqn:Hn. revert L Hn.
  induction n as [n IH] using lt_wf_ind. intros L Hn.
  destruct L as [|l ls]; [rewrite convert_lines_nil; constructor|].
  destruct (FixDivs.is_blockquote_sql_line l) as [r|] eqn:Hl.
  - rewrite (convert_lines_run _ _ _ Hl).
    destruct (collect_spec (l :: ls)) as [Hspec _].
    apply sublist_inserts_l.
    assert (Hf : filter (fun l => FixDivs.is_blockquote_sql_line l = None)
                   (firstn (length (fst (FixDivs.collect (l :: ls)))) (l :: ls)
                    ++ skipn (length (fst (FixDivs.collect (l :: ls))))
                         (l :: ls)) =
                 filter (fun l => FixDivs.is_blockquote_sql_line l = None)
                   (skipn (length (fst (FixDivs.collect (l :: ls)))) (l :: ls))).
    { rewrite filter_app, (classified_run_filter _ _ _ Hspec). reflexivity. }
    rewrite firstn_skipn in Hf. rewrite Hf.
    eapply IH; [|reflexivity].
    rewrite length_skipn, (FixDivs.collect_first _ _ _ Hl). subst n. simpl. lia.
  - rewrite (convert_lines_skip _ _ Hl), filter_cons_True by assumption.
    apply sublist_skip. eapply IH; [|reflexivity]. subst n. simpl. lia.
Qed.

Lemma convert_from_input (L : list pystr) :
  Forall (from_input FixDivs.is_blockquote_sql_line L) (FixDivs.convert_lines L).
Proof.
  remember (length L) as n eqn:Hn. revert L Hn.
  induction n as [n IH] using lt_wf_ind. intros L Hn.
  destruct L as [|l ls]; [rewrite convert_lines_nil; constructor|].
  destruct (FixDivs.is_blockquote_sql_line l) as [r|] eqn:Hl.
  - rewrite (convert_lines_run _ _ _ Hl).
    destruct (collect_spec (l :: ls)) as [Hspec _].
    apply Forall_app. split.
    + unfold FixDivs.emit_run.
      destruct (FixDivs.collect (l :: ls)) as [sql saw]. simpl fst in *.
      destruct saw.
      * constructor; [right; left; reflexivity|].
        apply Forall_app. split;
          [|constructor; [right; right; left; reflexivity|constructor]].
        apply pop_trailing_empty_Forall, pop_leading_empty_Forall.
        eapply Forall_impl; [exact (classified_run_from_input _ _ _ Hspec)|].
        intros o Ho. eapply from_input_mono; [|exact Ho]. apply sublist_take.
      * eapply Forall_impl; [apply input_from_input|].
        intros o Ho. eapply from_input_mono; [|exact Ho]. apply sublist_take.
    + eapply Forall_impl.
      * eapply IH; [|reflexivity].
        rewrite length_skipn, (FixDivs.collect_first _ _ _ Hl). subst n. simpl. lia.
      * intros o Ho. eapply from_input_mono; [|exact Ho]. apply sublist_drop.
  - rewrite (convert_lines_skip _ _ Hl). constructor.
    + left. apply elem_of_cons. left; reflexivity.
    + eapply Forall_impl.
      * eapply IH; [|reflexivity]. subst n. simpl. lia.
      * intros o Ho. eapply from_input_mono; [|exact Ho].
        apply sublist_cons. reflexivity.
Qed.

Lemma bold_collect_spec (ls : list pystr) :
  Forall2 (fun l m => NormalizeBold.is_bold_sql_line l = Some m)
    (firstn (length (NormalizeBold.collect_bold_run ls)) ls)
    (NormalizeBold.collect_bold_run ls).
Proof.
  induction ls as [|l ls IH]; simpl; [constructor|].
  destruct (NormalizeBold.is_bold_sql_line l) as [m|] eqn:Hl; simpl;
    constructor; assumption.
Qed.

Lemma scan_keeps_rejected b (L : list pystr) :
  filter (fun l => NormalizeBold.is_bold_sql_line l = None) L
    `sublist_of` fst (NormalizeBold.scan b L).
Proof.
  remember (length L) as n eqn:Hn. revert b L Hn.
  induction n as [n IH] using lt_wf_ind. intros b L Hn.
  destruct L as [|l ls]; [rewrite scan_nil; constructor|].
  destruct (NormalizeBold.is_bold_sql_line l) as [m|] eqn:Hl.
  - rewrite filter_cons_False by congruence.
    pose proof (bold_line_not_fence _ _ Hl) as Hnf. destruct b.
    + rewrite scan_inside by assumption. simpl. apply sublist_cons.
      eapply IH; [|reflexivity]. subst n. simpl. lia.
    + rewrite (scan_bold _ _ _ Hl). simpl.
      rewrite <- (firstn_skipn (length (NormalizeBold.collect_bold_run ls)) ls)
        at 1.
      rewrite filter_app, (classified_run_filter _ _ _ (bold_collect_spec ls)).
      simpl app.
      apply sublist_cons, sublist_cons, sublist_inserts_l, sublist_cons.
      eapply IH; [|reflexivity]. rewrite length_skipn. subst n. simpl. lia.
  - rewrite (scan_not_bold _ _ _ Hl), filter_cons_True by assumption.
    simpl. apply sublist_skip. eapply IH; [|reflexivity]. subst n. simpl. lia.
Qed.

Lemma scan_from_input b (L : list pystr) :
  Forall (from_input NormalizeBold.is_bold_sql_line L)
    (fst (NormalizeBold.scan b L)).
Proof.
  remember (length L) as n eqn:Hn. revert b L Hn.
  induction n as [n IH] using lt_wf_ind. intros b L Hn.
  destruct L as [|l ls]; [rewrite scan_nil; constructor|].
  assert (Hstep : forall b', Forall (from_input NormalizeBold.is_bold_sql_line
                                       (l :: ls))
                               (l :: fst (NormalizeBold.scan b' ls))).
  { intros b'. constructor; [left; apply elem_of_cons; left; reflexivity|].
    eapply Forall_impl.
    - eapply IH; [|reflexivity]. subst n. simpl. lia.
    - intros o Ho. eapply from_input_mono; [|exact Ho].
      apply sublist_cons. reflexivity. }
  destruct (NormalizeBold.is_bold_sql_line l) as [m|] eqn:Hl.
  - pose proof (bold_line_not_fence _ _ Hl) as Hnf. destruct b.
    + rewrite scan_inside by assumption. apply Hstep.
    + rewrite (scan_bold _ _ _ Hl). simpl.
      constructor; [right; left; reflexivity|].
      constructor.
      { right; right; right. exists l.
        split; [apply elem_of_cons; left; reflexivity|exact Hl]. }
      apply Forall_app. split.
      * eapply Forall_impl;
          [exact (classified_run_from_input _ _ _ (bold_collect_spec ls))|].
        intros o Ho. eapply from_input_mono; [|exact Ho].
        apply sublist_cons, sublist_take.
      * constructor; [right; right; left; reflexivity|].
        eapply Forall_impl.
        -- eapply IH; [|reflexivity]. rewrite length_skipn. subst n. simpl. lia.
        -- intros o Ho. eapply from_input_mono; [|exact Ho].
           apply sublist_cons, sublist_drop.
  - rewrite (scan_not_bold _ _ _ Hl). apply Hstep.
Qed.

(** X13: where the output lines of the two loops come from.  The lines that
    the classifier of the loop rejects are all kept, in their order, among
    the output lines; and every output line is a line of the input, one of
    the two fence markers, or the content that the classifier extracts from
    a line of the input.  This holds for the blockquote converter and, in
    either fence state, for the bold-SQL scan. *)
Theorem output_lines_from_input (b : bool) (L : list pystr) :
  (filter (fun l => FixDivs.is_blockquote_sql_line l = None) L
     `sublist_of` FixDivs.convert_lines L /\
   Forall (from_input FixDivs.is_blockquote_sql_line L)
     (FixDivs.convert_lines L)) /\
  (filter (fun l => NormalizeBold.is_bold_sql_line l = None) L
     `sublist_of` fst (NormalizeBold.scan b L) /\
   Forall (from_input NormalizeBold.is_bold_sql_line L)
     (fst (NormalizeBold.scan b L))).
Proof.
  split; split.
  - apply convert_keeps_rejected.
  - apply convert_from_input.
  - apply scan_keeps_rejected.
  - apply scan_from_input.
Qed.

End LinesKept.

(** * The entry points: what a run does to the files *)

Section PathFacts.

Lemma list_ascii_app (a b : string) :
  list_ascii_of_string (a +:+ b) =
  list_ascii_of_string a ++ list_ascii_of_string b.
Proof. induction a as [|c a IH]; simpl; [reflexivity|]. rewrite IH. reflexivity. Qed.

Lemma list_ascii_inj (a b : string) :
  list_ascii_of_string a = list_ascii_of_string b -> a = b.
Proof.
  intros H. rewrite <- (string_of_list_ascii_of_string a),
    <- (string_of_list_ascii_of_string b), H. reflexivity.
Qed.

Lemma with_added_suffix_inj p q ext :
  with_added_suffix p ext = with_added_suffix q ext -> p = q.
Proof.
  unfold with_added_suffix. intros H. apply list_ascii_inj.
  apply (f_equal list_ascii_of_string) in H. rewrite !list_ascii_app in H.
  apply app_inv_tail in H. exact H.
Qed.

Lemma matches_md_rev p :
  matches_md p =
  match until_slash (rev (list_ascii_of_string p)) with
  | d :: m :: dot :: _ =>
      Ascii.eqb dot "." && Ascii.eqb m "m" && Ascii.eqb d "d"
  | _ => false
  end.
Proof.
  unfold matches_md, path_name.
  rewrite list_ascii_of_string_of_list_ascii, rev_involutive. reflexivity.
Qed.

Lemma backup_is_no_lesson p :
  matches_md (with_added_suffix p ".fixbak") = false /\
  matches_md (with_added_suffix p ".bak") = false.
Proof.
  rewrite !matches_md_rev. unfold with_added_suffix.
  rewrite !list_ascii_app, !rev_app_distr. split; reflexivity.
Qed.

End PathFacts.

Section MainLoop.
Variable normalize : string -> filesystem -> option (bool * filesystem).
Variables (differs : pystr -> bool) (new : pystr -> pystr) (ext : string).
Variables (msg1 msg2 : string -> string).

Hypothesis Hnorm : forall p σ,
  normalize p σ =
  match read_text p σ with
  | None => None
  | Some orig =>
      if differs orig
      then Some (true, write_text p (new orig)
                         (write_text (with_added_suffix p ext) orig σ))
      else Some (false, σ)
  end.
Hypothesis Hnew : forall orig,
  forallb (fun c => negb (Ascii.eqb c CR)) (new orig) = true.
Hypothesis Hext : forall p, matches_md (with_added_suffix p ext) = false.

Let bak (p : string) : string := with_added_suffix p ext.
Let lines_of (σ : filesystem) (md : list string) : list string :=
  flat_map (fun p => msg1 p ::
                     if file_changes differs σ p then [msg2 p] else []) md.

Lemma file_changes_ext σ1 σ2 p :
  read_text p σ1 = read_text p σ2 ->
  file_changes differs σ1 p = file_changes differs σ2 p.
Proof. unfold file_changes. intros ->. reflexivity. Qed.

Lemma changes_ext σ1 σ2 md :
  (forall p, p ∈ md -> read_text p σ1 = read_text p σ2) ->
  existsb (file_changes differs σ1) md = existsb (file_changes differs σ2) md /\
  lines_of σ1 md = lines_of σ2 md.
Proof.
  induction md as [|p md IH]; intros H; [split; reflexivity|].
  destruct IH as [IH1 IH2].
  { intros q Hq. apply H. apply elem_of_cons. right; exact Hq. }
  assert (Hp : file_changes differs σ1 p = file_changes differs σ2 p).
  { apply file_changes_ext, H. apply elem_of_cons. left; reflexivity. }
  unfold lines_of in *. simpl. rewrite Hp, IH1, IH2. split; reflexivity.
Qed.

Lemma read_of_files σ1 σ2 p :
  files σ1 !! p = files σ2 !! p -> read_text p σ1 = read_text p σ2.
Proof. unfold read_text. intros ->. reflexivity. Qed.

Lemma lesson_is_no_backup p q : matches_md p = true -> p <> bak q.
Proof. intros Hp ->. unfold bak in Hp. rewrite Hext in Hp. discriminate. Qed.

(** The loop on readable, distinct lesson files: each file is processed from
    the text it had at the start. *)
Lemma visit_spec md :
  forall σ ch out,
    NoDup md -> forallb matches_md md = true ->
    (forall p, p ∈ md -> is_Some (read_text p σ)) ->
    exists σ',
      visit_files normalize msg1 msg2 md ch out σ =
      Done (ch || existsb (file_changes differs σ) md)
           (out ++ lines_of σ md) σ' /\
      (forall p orig, p ∈ md -> read_text p σ = Some orig ->
         read_text p σ' = Some (if differs orig then new orig else orig) /\
         (differs orig = true -> read_text (bak p) σ' = Some orig)) /\
      (forall q, q ∉ md -> (forall p, p ∈ md -> q <> bak p) ->
         files σ' !! q = files σ !! q) /\
      ((forall p, p ∈ md -> file_changes differs σ p = false) -> σ' = σ).
Proof.
  induction md as [|p rest IH]; intros σ ch out Hnd Hmd Hread.
  - exists σ. simpl. rewrite orb_false_r, app_nil_r.
    split; [reflexivity|]. split; [|split; [reflexivity|reflexivity]].
    intros p orig Hp. apply elem_of_nil in Hp. contradiction.
  - apply NoDup_cons in Hnd as [Hp Hnd].
    simpl in Hmd. apply andb_prop in Hmd as [Hmp Hmd].
    destruct (Hread p) as [orig Horig]; [apply elem_of_cons; left; reflexivity|].
    pose proof (read_text_no_cr _ _ _ Horig) as Hcr.
    assert (Hrest_md : forall q, q ∈ rest -> matches_md q = true).
    { intros q Hq. rewrite forallb_forall in Hmd. apply Hmd.
      apply list_elem_of_In. exact Hq. }
    cbn [visit_files]. rewrite Hnorm, Horig.
    assert (Hchg : file_changes differs σ p = differs orig)
      by (unfold file_changes; rewrite Horig; reflexivity).
    destruct (differs orig) eqn:Hd.
    + set (σ1 := write_text p (new orig) (write_text (with_added_suffix p ext) orig σ)).
      assert (Hsame : forall q, q ∈ rest -> read_text q σ1 = read_text q σ).
      { intros q Hq. unfold σ1. rewrite !read_other; [reflexivity| |].
        - apply lesson_is_no_backup, Hrest_md, Hq.
        - intros ->. contradiction. }
      destruct (IH σ1 true ((out ++ [msg1 p]) ++ [msg2 p]) Hnd Hmd)
        as (σ' & Hrun & Hfiles & Hframe & _).
      { intros q Hq. rewrite Hsame by assumption. apply Hread.
        apply elem_of_cons. right; exact Hq. }
      destruct (changes_ext σ1 σ rest Hsame) as [He Hl].
      exists σ'. split; [|split; [|split]].
      * rewrite Hrun.
        replace (ch || existsb (file_changes differs σ) (p :: rest)) with true
          by (cbn [existsb]; rewrite Hchg; cbn [orb];
              rewrite orb_true_r; reflexivity).
        replace (lines_of σ (p :: rest))
          with (msg1 p :: msg2 p :: lines_of σ rest)
          by (unfold lines_of; cbn [flat_map]; rewrite Hchg; reflexivity).
        cbn [orb]. rewrite Hl, <- !app_assoc. reflexivity.
      * intros q origq Hq Hreadq. apply elem_of_cons in Hq as [->|Hq].
        -- assert (origq = orig) as -> by congruence. rewrite Hd.
           assert (Hp_keep : files σ' !! p = files σ1 !! p).
           { apply Hframe; [assumption|].
             intros q Hq. apply lesson_is_no_backup; assumption. }
           assert (Hb_keep : files σ' !! bak p = files σ1 !! bak p).
           { apply Hframe.
             - intros Hin. apply Hrest_md in Hin. unfold bak in Hin.
               rewrite Hext in Hin. discriminate.
             - intros q Hq E. apply with_added_suffix_inj in E. subst q.
               contradiction. }
           split.
           ++ rewrite (read_of_files _ _ _ Hp_keep). unfold σ1.
              apply read_after_write, Hnew.
           ++ intros _. rewrite (read_of_files _ _ _ Hb_keep). unfold σ1.
              rewrite read_other
                by (apply not_eq_sym, lesson_is_no_backup; assumption).
              apply read_after_write; assumption.
        -- apply Hfiles; [assumption|]. rewrite Hsame by assumption.
           exact Hreadq.
      * intros q Hq Hqb. apply not_elem_of_cons in Hq as [Hqp Hq].
        rewrite Hframe.
        -- unfold σ1. simpl. rewrite !lookup_insert_ne; [reflexivity| |].
           ++ intros E. apply (Hqb p); [apply elem_of_cons; left; reflexivity|].
              symmetry. exact E.
           ++ congruence.
        -- assumption.
        -- intros q' Hq'. apply Hqb. apply elem_of_cons. right; exact Hq'.
      * intros Hnone. exfalso.
        specialize (Hnone p (proj2 (elem_of_cons _ _ _) (or_introl eq_refl))).
        unfold file_changes in Hnone. rewrite Horig, Hd in Hnone. discriminate.
    + destruct (IH σ ch (out ++ [msg1 p]) Hnd Hmd)
        as (σ' & Hrun & Hfiles & Hframe & Hsame).
      { intros q Hq. apply Hread. apply elem_of_cons. right; exact Hq. }
      exists σ'. split; [|split; [|split]].
      * rewrite Hrun.
        replace (existsb (file_changes differs σ) (p :: rest))
          with (existsb (file_changes differs σ) rest)
          by (cbn [existsb]; rewrite Hchg; reflexivity).
        replace (lines_of σ (p :: rest)) with (msg1 p :: lines_of σ rest)
          by (unfold lines_of; cbn [flat_map]; rewrite Hchg; reflexivity).
        rewrite <- !app_assoc. reflexivity.
      * intros q origq Hq Hreadq. apply elem_of_cons in Hq as [->|Hq].
        -- assert (origq = orig) as -> by congruence. rewrite Hd.
           split; [|discriminate].
           rewrite (read_of_files σ' σ); [assumption|].
           apply Hframe; [assumption|].
           intros q Hq. apply lesson_is_no_backup; assumption.
        -- apply Hfiles; assumption.
      * intros q Hq Hqb. apply not_elem_of_cons in Hq as [Hqp Hq].
        apply Hframe; [assumption|].
        intros q' Hq'. apply Hqb. apply elem_of_cons. right; exact Hq'.
      * intros Hnone. apply Hsame. intros q Hq. apply Hnone.
        apply elem_of_cons. right; exact Hq.
Qed.

Lemma visit_app pre rest ch out σ :
  visit_files normalize msg1 msg2 (pre ++ rest) ch out σ =
  match visit_files normalize msg1 msg2 pre ch out σ with
  | Done ch' out' σ' => visit_files normalize msg1 msg2 rest ch' out' σ'
  | Failed out' σ' => Failed out' σ'
  end.
Proof.
  revert ch out σ. induction pre as [|p pre IH]; intros ch out σ;
    [reflexivity|].
  rewrite <- app_comm_cons. cbn [visit_files].
  destruct (normalize p σ) as [[[] σ1]|]; try apply IH. reflexivity.
Qed.

(** The run ends at the first file that cannot be read; what was done to
    the files before it stays. *)
Lemma visit_stops pre p post σ ch out :
  NoDup (pre ++ p :: post) -> forallb matches_md (pre ++ p :: post) = true ->
  (forall q, q ∈ pre -> is_Some (read_text q σ)) ->
  read_text p σ = None ->
  exists ch' out' σ',
    visit_files normalize msg1 msg2 pre ch out σ = Done ch' out' σ' /\
    visit_files normalize msg1 msg2 (pre ++ p :: post) ch out σ =
      Failed (out' ++ [msg1 p]) σ' /\
    (forall q, q ∈ post ->
       files σ' !! q = files σ !! q /\ files σ' !! bak q = files σ !! bak q).
Proof.
  intros Hnd Hmd Hread Hmiss.
  apply NoDup_app in Hnd as (Hnd_pre & Hdisj & Hnd_post).
  apply NoDup_cons in Hnd_post as [Hp_post _].
  rewrite forallb_app in Hmd. apply andb_prop in Hmd as [Hmd_pre Hmd_post].
  cbn [forallb] in Hmd_post. apply andb_prop in Hmd_post as [Hmp Hmd_post].
  destruct (visit_spec pre σ ch out Hnd_pre Hmd_pre Hread)
    as (σ' & Hrun & _ & Hframe & _).
  assert (Hp_pre : p ∉ pre).
  { intros Hin. apply (Hdisj p Hin). apply elem_of_cons. left; reflexivity. }
  exists (ch || existsb (file_changes differs σ) pre), (out ++ lines_of σ pre), σ'.
  split; [exact Hrun|]. split.
  - rewrite visit_app, Hrun. cbn [visit_files]. rewrite Hnorm.
    rewrite (read_of_files σ' σ), Hmiss; [reflexivity|].
    apply Hframe; [assumption|].
    intros q Hq. apply lesson_is_no_backup; assumption.
  - intros q Hq.
    assert (Hq_pre : q ∉ pre).
    { intros Hin. apply (Hdisj q Hin). apply elem_of_cons. right; exact Hq. }
    assert (Hmq : matches_md q = true).
    { rewrite forallb_forall in Hmd_post. apply Hmd_post.
      apply list_elem_of_In. exact Hq. }
    split; apply Hframe.
    + assumption.
    + intros r Hr. apply lesson_is_no_backup; assumption.
    + intros Hin. rewrite forallb_forall in Hmd_pre.
      apply list_elem_of_In, Hmd_pre in Hin. unfold bak in Hin.
      rewrite Hext in Hin. discriminate.
    + intros r Hr E. apply with_added_suffix_inj in E. subst r. contradiction.
Qed.



End MainLoop.

Section Mains.
Local Arguments Ascii.eqb : simpl never.

Lemma fix_loop_visit md ch out σ :
  FixDivsMain.loop md ch out σ =
  visit_files FixDivs.normalize_file fix_processing fix_fixed md ch out σ.
Proof.
  revert ch out σ. induction md as [|p rest IH]; intros ch out σ;
    [reflexivity|].
  cbn [FixDivsMain.loop visit_files].
  destruct (FixDivs.normalize_file p σ) as [[[] σ']|]; try apply IH.
  reflexivity.
Qed.

Lemma bold_loop_visit md ch out σ :
  NormalizeBoldMain.loop md ch out σ =
  visit_files NormalizeBold.normalize_file bold_processing bold_normalized
    md ch out σ.
Proof.
  revert ch out σ. induction md as [|p rest IH]; intros ch out σ;
    [reflexivity|].
  cbn [NormalizeBoldMain.loop visit_files].
  destruct (NormalizeBold.normalize_file p σ) as [[[] σ']|]; try apply IH.
  reflexivity.
Qed.

Lemma fix_normalize_shape p σ :
  FixDivs.normalize_file p σ =
  match read_text p σ with
  | None => None
  | Some orig =>
      if fix_differs orig
      then Some (true, write_text p (FixDivs.fix_text orig)
                         (write_text (with_added_suffix p ".fixbak") orig σ))
      else Some (false, σ)
  end.
Proof.
  unfold FixDivs.normalize_file. destruct (read_text p σ); reflexivity.
Qed.

Lemma bold_normalize_shape p σ :
  NormalizeBold.normalize_file p σ =
  match read_text p σ with
  | None => None
  | Some orig =>
      if bold_differs orig
      then Some (true, write_text p (bold_new orig)
                         (write_text (with_added_suffix p ".bak") orig σ))
      else Some (false, σ)
  end.
Proof.
  unfold NormalizeBold.normalize_file, bold_differs, bold_new.
  destruct (read_text p σ) as [orig|]; [|reflexivity].
  destruct (NormalizeBold.scan false (splitlines orig)) as [out []];
    reflexivity.
Qed.

Lemma bold_new_no_cr orig :
  forallb (fun c => negb (Ascii.eqb c CR)) (bold_new orig) = true.
Proof. apply lf_only_no_cr, new_text_lf_only. Qed.

Lemma fix_transform orig :
  (if fix_differs orig then FixDivs.fix_text orig else orig) =
  FixDivs.fix_text orig.
Proof.
  unfold fix_differs. destruct (bool_decide _) eqn:E; simpl; [|reflexivity].
  apply bool_decide_eq_true in E. congruence.
Qed.

Lemma bold_transform orig :
  (if bold_differs orig then bold_new orig else orig) =
  NormalizeBold.normalized_text orig.
Proof.
  unfold bold_differs, bold_new, NormalizeBold.normalized_text.
  destruct (NormalizeBold.scan false (splitlines orig)) as [out []];
    reflexivity.
Qed.

Lemma run_log_shape differs msg1 msg2 σ md (ch := existsb (file_changes differs σ) md) :
  (if false || ch
   then [] ++ flat_map (fun p => msg1 p ::
                          if file_changes differs σ p then [msg2 p] else []) md
   else ([] ++ flat_map (fun p => msg1 p ::
                           if file_changes differs σ p then [msg2 p] else []) md)
        ++ ["No changes made."%string]) =
  run_log differs msg1 msg2 σ md.
Proof.
  unfold run_log. fold ch. simpl. destruct ch; [rewrite app_nil_r|];
    reflexivity.
Qed.

(** X14: a complete run of the fix script's [main] over distinct lesson
    files that can all be read.  It exits with status 0.  It prints, for
    each file in turn, the processing line, followed by the fixed line when
    the text of the file changes, and at the end the no-changes line when no
    file changed.  Each file is transformed from the text it had at the
    start, whatever was done to the files before it: afterwards it reads as
    [fix_text] of that text, and its backup, when the text changed, reads as
    that text.  Every file that is neither a lesson file nor one of their
    backups is as it was. *)
Theorem fix_main_effect (md_files : list string) (σ : filesystem)
  (Hnodup : NoDup md_files)
  (Hmd : forallb matches_md md_files = true)
  (Hread : forall p, p ∈ md_files -> is_Some (read_text p σ)) :
  exists σ',
    FixDivsMain.main md_files σ =
    Exit 0 (run_log fix_differs fix_processing fix_fixed σ md_files) σ' /\
    (forall p orig, p ∈ md_files -> read_text p σ = Some orig ->
       read_text p σ' = Some (FixDivs.fix_text orig) /\
       (FixDivs.fix_text orig <> orig ->
        read_text (with_added_suffix p ".fixbak") σ' = Some orig)) /\
    (forall q, q ∉ md_files ->
       (forall p, p ∈ md_files -> q <> with_added_suffix p ".fixbak") ->
       files σ' !! q = files σ !! q).
Proof.
  destruct (visit_spec FixDivs.normalize_file fix_differs FixDivs.fix_text
              ".fixbak" fix_processing fix_fixed fix_normalize_shape
              fix_text_no_cr (fun p => proj1 (backup_is_no_lesson p))
              md_files σ false [] Hnodup Hmd Hread)
    as (σ' & Hrun & Hfiles & Hframe & _).
  exists σ'. split; [|split].
  - unfold FixDivsMain.main. rewrite fix_loop_visit, Hrun.
    f_equal. apply run_log_shape.
  - intros p orig Hp Horig. destruct (Hfiles p orig Hp Horig) as [H1 H2].
    rewrite fix_transform in H1. split; [exact H1|].
    intros Hne. apply H2. unfold fix_differs.
    rewrite bool_decide_eq_false_2 by assumption. reflexivity.
  - exact Hframe.
Qed.

Lemma two_lessons_listing :
  NoDup ["course/lessons/a.md"; "course/lessons/b.md"]%string /\
  forallb matches_md ["course/lessons/a.md"; "course/lessons/b.md"]%string
    = true /\
  (forall p, p ∈ ["course/lessons/a.md"; "course/lessons/b.md"]%string ->
             is_Some (read_text p two_lessons)).
Proof.
  split; [|split].
  - apply NoDup_cons. split; [|apply NoDup_singleton].
    intros H. apply list_elem_of_singleton in H. discriminate.
  - reflexivity.
  - intros p Hp. apply elem_of_cons in Hp as [->|Hp];
      [eexists; reflexivity|].
    apply list_elem_of_singleton in Hp. subst p. eexists; reflexivity.
Qed.

Lemma fix_main_effect_witness :
  exists σ',
    FixDivsMain.main ["course/lessons/a.md"; "course/lessons/b.md"]%string
      two_lessons =
    Exit 0 ["Processing: a.md"; "  -> fixed a.md"; "Processing: b.md"]%string
      σ' /\
    read_text "course/lessons/a.md.fixbak" σ' = Some lesson_text.
Proof.
  destruct two_lessons_listing as (Hnd & Hmd & Hread).
  destruct (fix_main_effect _ two_lessons Hnd Hmd Hread)
    as (σ' & Hmain & Hfiles & _).
  exists σ'. split; [exact Hmain|].
  apply (Hfiles "course/lessons/a.md"%string lesson_text).
  - apply elem_of_cons. left; reflexivity.
  - reflexivity.
  - discriminate.
Defined.

(** X15: the bold script's [main].  When the lesson directory is missing it
    prints one line that names the directory, returns status 1 and touches
    no file.  Otherwise a complete run over distinct lesson files that can
    all be read returns status 0; it prints for each file in turn the
    processing line with the whole path, followed by the normalized line
    when the scan converts something in the file, and at the end the
    no-changes line when nothing was converted anywhere.  Each file is
    transformed from the text it had at the start: afterwards it reads as
    [normalized_text] of that text, and its backup, when something was
    converted, reads as that text.  Every file that is neither a lesson file
    nor one of their backups is as it was. *)
Theorem bold_main_effect (lessons : string) (md_files : list string)
  (σ : filesystem)
  (Hnodup : NoDup md_files)
  (Hmd : forallb matches_md md_files = true)
  (Hread : forall p, p ∈ md_files -> is_Some (read_text p σ)) :
  NormalizeBoldMain.main lessons false md_files σ =
    Exit 1 [("Lessons directory not found: " +:+ lessons)%string] σ /\
  exists σ',
    NormalizeBoldMain.main lessons true md_files σ =
    Exit 0 (run_log bold_differs bold_processing bold_normalized σ md_files)
      σ' /\
    (forall p orig, p ∈ md_files -> read_text p σ = Some orig ->
       read_text p σ' = Some (NormalizeBold.normalized_text orig) /\
       (bold_differs orig = true ->
        read_text (with_added_suffix p ".bak") σ' = Some orig)) /\
    (forall q, q ∉ md_files ->
       (forall p, p ∈ md_files -> q <> with_added_suffix p ".bak") ->
       files σ' !! q = files σ !! q).
Proof.
  split; [reflexivity|].
  destruct (visit_spec NormalizeBold.normalize_file bold_differs bold_new
              ".bak" bold_processing bold_normalized bold_normalize_shape
              bold_new_no_cr (fun p => proj2 (backup_is_no_lesson p))
              md_files σ false [] Hnodup Hmd Hread)
    as (σ' & Hrun & Hfiles & Hframe & _).
  exists σ'. split; [|split].
  - unfold NormalizeBoldMain.main. cbn [negb]. rewrite bold_loop_visit, Hrun.
    f_equal. apply run_log_shape.
  - intros p orig Hp Horig. destruct (Hfiles p orig Hp Horig) as [H1 H2].
    rewrite bold_transform in H1. split; assumption.
  - exact Hframe.
Qed.

Lemma bold_main_effect_witness :
  exists σ',
    NormalizeBoldMain.main "course/lessons"
      true ["course/lessons/a.md"; "course/lessons/b.md"]%string two_lessons =
    Exit 0 ["Processing: course/lessons/a.md"; "  -> normalized a.md";
            "Processing: course/lessons/b.md"]%string σ' /\
    read_text "course/lessons/b.md" σ' = Some (str "plain" ++ [LF]).
Proof.
  destruct two_lessons_listing as (Hnd & Hmd & Hread).
  destruct (bold_main_effect "course/lessons" _ two_lessons Hnd Hmd Hread)
    as (_ & σ' & Hmain & Hfiles & _).
  exists σ'. split; [exact Hmain|].
  apply (Hfiles "course/lessons/b.md"%string (str "plain" ++ [LF])).
  - apply elem_of_cons. right. apply elem_of_cons. left; reflexivity.
  - reflexivity.
Defined.

(** X16: a file of the listing that cannot be read ends the run of either
    [main] with the exception.  The files in front of it have been processed
    as in a run over them alone, their messages and the processing line of
    the unreadable file have been printed, and the files behind it and their
    backups are as they were. *)
Theorem main_stops_at_unreadable (pre post : list string) (p : string)
  (σ : filesystem)
  (Hnodup : NoDup (pre ++ p :: post))
  (Hmd : forallb matches_md (pre ++ p :: post) = true)
  (Hread : forall q, q ∈ pre -> is_Some (read_text q σ))
  (Hmissing : read_text p σ = None) :
  (exists ch out σ',
     FixDivsMain.loop pre false [] σ = Done ch out σ' /\
     FixDivsMain.main (pre ++ p :: post) σ =
       Raised (out ++ [fix_processing p]) σ' /\
     (forall q, q ∈ post ->
        files σ' !! q = files σ !! q /\
        files σ' !! with_added_suffix q ".fixbak" =
        files σ !! with_added_suffix q ".fixbak")) /\
  (forall lessons, exists ch out σ',
     NormalizeBoldMain.loop pre false [] σ = Done ch out σ' /\
     NormalizeBoldMain.main lessons true (pre ++ p :: post) σ =
       Raised (out ++ [bold_processing p]) σ' /\
     (forall q, q ∈ post ->
        files σ' !! q = files σ !! q /\
        files σ' !! with_added_suffix q ".bak" =
        files σ !! with_added_suffix q ".bak")).
Proof.
  split.
  - destruct (visit_stops FixDivs.normalize_file fix_differs FixDivs.fix_text
                ".fixbak" fix_processing fix_fixed fix_normalize_shape
                fix_text_no_cr (fun p => proj1 (backup_is_no_lesson p))
                pre p post σ false [] Hnodup Hmd Hread Hmissing)
      as (ch & out & σ' & Hpre & Hrun & Hframe).
    exists ch, out, σ'. split; [rewrite fix_loop_visit; exact Hpre|].
    split; [|exact Hframe].
    unfold FixDivsMain.main. rewrite fix_loop_visit, Hrun. reflexivity.
  - intros lessons.
    destruct (visit_stops NormalizeBold.normalize_file bold_differs bold_new
                ".bak" bold_processing bold_normalized bold_normalize_shape
                bold_new_no_cr (fun p => proj2 (backup_is_no_lesson p))
                pre p post σ false [] Hnodup Hmd Hread Hmissing)
      as (ch & out & σ' & Hpre & Hrun & Hframe).
    exists ch, out, σ'. split; [rewrite bold_loop_visit; exact Hpre|].
    split; [|exact Hframe].
    unfold NormalizeBoldMain.main. cbn [negb].
    rewrite bold_loop_visit, Hrun. reflexivity.
Qed.

Lemma main_stops_at_unreadable_witness :
  exists σ',
    FixDivsMain.main
      ["course/lessons/a.md"; "course/lessons/ab.md"; "course/lessons/b.md"]%string
      two_lessons =
    Raised ["Processing: a.md"; "  -> fixed a.md"; "Processing: ab.md"]%string
      σ' /\
    files σ' !! "course/lessons/b.md"%string =
    files two_lessons !! "course/lessons/b.md"%string.
Proof.
  destruct (main_stops_at_unreadable ["course/lessons/a.md"%string]
              ["course/lessons/b.md"%string] "course/lessons/ab.md"%string
              two_lessons)
    as [(ch & out & σ' & Hpre & Hmain & Hframe) _].
  - apply (bool_decide_unpack _). exact I.
  - reflexivity.
  - intros q Hq. apply list_elem_of_singleton in Hq. subst q.
    eexists; reflexivity.
  - reflexivity.
  - exists σ'. split.
    + cbn [app] in Hmain. rewrite Hmain. injection Hpre as _ <- _.
      reflexivity.
    + apply Hframe. apply elem_of_cons. left; reflexivity.
Defined.



(** X18: a backup is never taken for a lesson: the name of a file with the
    backup suffix of either script added does not match the pattern of the
    glob, so a later run does not visit the backups; and two different files
    never share a backup. *)
Theorem backups_are_not_lessons (p q : string) :
  matches_md (with_added_suffix p ".fixbak") = false /\
  matches_md (with_added_suffix p ".bak") = false /\
  (p <> q ->
   with_added_suffix p ".fixbak" <> with_added_suffix q ".fixbak" /\
   with_added_suffix p ".bak" <> with_added_suffix q ".bak").
Proof.
  destruct (backup_is_no_lesson p) as [H1 H2].
  split; [exact H1|]. split; [exact H2|].
  intros Hne. split; intros E; apply with_added_suffix_inj in E; contradiction.
Qed.

Lemma backups_are_not_lessons_witness :
  matches_md "course/lessons/a.md" = true /\
  matches_md "course/lessons/a.md.fixbak" = false /\
  "course/lessons/a.md.bak"%string <> "course/lessons/b.md.bak"%string.
Proof.
  split; [reflexivity|].
  destruct (backups_are_not_lessons "course/lessons/a.md" "course/lessons/b.md")
    as (H1 & _ & H3).
  split; [exact H1|]. apply H3. discriminate.
Defined.

End Mains.
